(** * FluidNC command / settings dispatch (ProcessSettings.cpp)

    A shallow embedding of the dispatch engine of [ProcessSettings.cpp]:
    the authentication gate, the percent codec, the restore engine, the
    check-mode toggle, the homing orchestrator, the UART passthrough set-up
    and the resolver [do_command_or_setting], followed by the properties
    proved about them. *)

From Stdlib Require Import Bool Arith ZArith List Ascii String Lia.
Import ListNotations.

Local Open Scope string_scope.
Local Open Scope list_scope.

(** ** Shared vocabulary *)

(** [Error] result codes (Error.h), restricted to the ones this file returns. *)
Inductive Error : Set :=
| Ok
| InvalidStatement
| InvalidValue
| BadNumberFormat
| NumberRange
| AuthenticationFailed
| ConfigurationInvalid
| IdleError
| CheckDoor
| CheckControlPins
| SingleAxisHoming
| SettingDisabled
| SystemGcLock
| ResetErr.

Definition Error_eqb (a b : Error) : bool :=
  match a, b with
  | Ok, Ok | InvalidStatement, InvalidStatement | InvalidValue, InvalidValue
  | BadNumberFormat, BadNumberFormat | NumberRange, NumberRange
  | AuthenticationFailed, AuthenticationFailed
  | ConfigurationInvalid, ConfigurationInvalid | IdleError, IdleError
  | CheckDoor, CheckDoor | CheckControlPins, CheckControlPins
  | SingleAxisHoming, SingleAxisHoming | SettingDisabled, SettingDisabled
  | SystemGcLock, SystemGcLock | ResetErr, ResetErr => true
  | _, _ => false
  end.

(** Machine states ([State] in the control core). *)
Inductive State : Set :=
| Idle | Alarm | CheckMode | Homing | Cycle | Hold | Jog
| SafetyDoor | Sleep | ConfigAlarm | Critical.

Definition State_eqb (a b : State) : bool :=
  match a, b with
  | Idle, Idle | Alarm, Alarm | CheckMode, CheckMode | Homing, Homing
  | Cycle, Cycle | Hold, Hold | Jog, Jog | SafetyDoor, SafetyDoor
  | Sleep, Sleep | ConfigAlarm, ConfigAlarm | Critical, Critical => true
  | _, _ => false
  end.

Inductive AuthenticationLevel : Set := LEVEL_GUEST | LEVEL_USER | LEVEL_ADMIN.

(** Permission tags: WG readable and writable as guest, WU readable and
    writable as user and admin, WA readable as user and admin, writable as
    admin. *)
Inductive permissions_t : Set := WG | WU | WA.

Definition permissions_eqb (a b : permissions_t) : bool :=
  match a, b with
  | WG, WG | WU, WU | WA, WA => true
  | _, _ => false
  end.

(** A [std::string_view] argument.  [None] is the default-constructed view
    (no characters were ever attached to it); [Some s] is a view over the
    characters [s], possibly none.  The code only ever asks [empty()] and
    copies the characters. *)
Definition string_view : Set := option string.

Definition sv_empty (v : string_view) : bool :=
  match v with
  | None => true
  | Some s => (String.length s =? 0)%nat
  end.

Definition sv_str (v : string_view) : string :=
  match v with
  | None => ""
  | Some s => s
  end.

(** What a callee sees through [const char*]: the characters before the
    first NUL. *)
Fixpoint c_str (s : string) : string :=
  match s with
  | EmptyString => ""
  | String c rest => if Ascii.eqb c zero then "" else String c (c_str rest)
  end.

(** ** Authentication gate *)

Module Auth.

(** [auth_failed]: [enabled] is the compile-time switch
    ENABLE_AUTHENTICATION, [permissions] is [w->getPermissions()]. *)
Definition auth_failed (enabled : bool) (permissions : permissions_t)
           (value : string_view) (auth_level : AuthenticationLevel) : bool :=
  if enabled then
    match auth_level with
    | LEVEL_ADMIN => false
    | LEVEL_GUEST => negb (permissions_eqb permissions WG)
    | LEVEL_USER =>
        if sv_empty value then false
        else permissions_eqb permissions WA
    end
  else false.

(** The table of the specification, row by row: [true] is allow. *)
Definition gate_table (level : AuthenticationLevel) (permission : permissions_t)
           (is_write : bool) : bool :=
  match level, permission, is_write with
  | LEVEL_ADMIN, _, _ => true
  | LEVEL_GUEST, WG, _ => true
  | LEVEL_GUEST, _, _ => false
  | LEVEL_USER, _, false => true
  | LEVEL_USER, WA, true => false
  | LEVEL_USER, _, true => true
  end.

End Auth.

(** ** Percent codec *)

Module Codec.

(** [uriEncodeGrblCharacters]: the argument is a C string, read up to its
    terminator. *)
Fixpoint uriEncodeGrblCharacters (clear : string) : string :=
  match clear with
  | EmptyString => ""
  | String c rest =>
      if Ascii.eqb c zero then ""
      else
        (if Ascii.eqb c "%" then "%25"
         else if Ascii.eqb c "!" then "%21"
         else if Ascii.eqb c "?" then "%3F"
         else if Ascii.eqb c "~" then "%7E"
         else String c "")
          ++ uriEncodeGrblCharacters rest
  end.

(** Modelled from the spec: [string_util::from_hex] is not in this file;
    a percent escape is two hex digits, anything else is malformed. *)
Definition hex_digit (c : ascii) : option N :=
  let n := N_of_ascii c in
  if ((48 <=? n) && (n <=? 57))%N then Some (n - 48)%N
  else if ((65 <=? n) && (n <=? 70))%N then Some (n - 55)%N
  else if ((97 <=? n) && (n <=? 102))%N then Some (n - 87)%N
  else None.

Definition from_hex (h l : ascii) : option ascii :=
  match hex_digit h, hex_digit l with
  | Some a, Some b => Some (ascii_of_N (16 * a + b))
  | _, _ => None
  end.

(** The decoder's state: the function-static [decoded] buffer, which lives
    across calls, and the error log. *)
Record DecState : Set := mkDec { decoded : string; dec_log : list string }.

Definition push_char (st : DecState) (c : ascii) : DecState :=
  mkDec (decoded st ++ String c "") (dec_log st).

Definition log_error (st : DecState) (msg : string) : DecState :=
  mkDec (decoded st) (dec_log st ++ [msg]).

(** The [while (!s.empty())] loop of [uriDecode]; leaving the loop and the
    [goto done] both end in [return decoded]. *)
Fixpoint uriDecode_loop (s : string) (st : DecState) : DecState :=
  match s with
  | EmptyString => st
  | String c s1 =>
      if Ascii.eqb c "%" then
        match s1 with
        | String h (String l s3) =>
            match from_hex h l with
            | Some esc => uriDecode_loop s3 (push_char st esc)
            | None => log_error st "Bad % encoding - not hex"
            end
        | _ => log_error st "Bad % encoding - too short"
        end
      else uriDecode_loop s1 (push_char st c)
  end.

(** [uriDecode]: the returned string is a copy of the static buffer as the
    call leaves it. *)
Definition uriDecode (s : string_view) (st : DecState) : string * DecState :=
  let st' := uriDecode_loop (sv_str s) st in
  (decoded st', st').

End Codec.

(** ** Registry entries *)

(** [type_t], the kind of a setting or command (an unscoped enum). *)
Inductive type_t : Set := GRBL | EXTENDED | WEBSET | PIN | GRBLCMD | WEBCMD.

Definition type_eqb (a b : type_t) : bool :=
  match a, b with
  | GRBL, GRBL | EXTENDED, EXTENDED | WEBSET, WEBSET | PIN, PIN
  | GRBLCMD, GRBLCMD | WEBCMD, WEBCMD => true
  | _, _ => false
  end.

(** A registered [Setting], as far as this file reads it. *)
Record Setting : Set := mkSetting {
  getName : string;
  getGrblName : option string;
  getType : type_t;
  getPermissions : permissions_t;
  getDescription : option string;
  getStringValue : string;
  getDefaultString : string
}.

(** Modelled from the spec: [Setting::setDefault] is not in this file; a
    reset puts the default value back as the current value. *)
Definition setDefault (s : Setting) : Setting :=
  mkSetting (getName s) (getGrblName s) (getType s) (getPermissions s)
            (getDescription s) (getDefaultString s) (getDefaultString s).

(** ** Restore engine *)

Module Restore.

Section Restore.

(** The numeric values of the enumerators of [type_t] and the bits of
    [SettingsRestore] are declared in headers that are not part of this
    file; they are parameters here. *)
Variable type_code : type_t -> Z.
Variables Defaults Parameters StartupLines Wifi : Z.

(** Coordinate-system data (arrays of floats), kept abstract. *)
Variable CoordData : Type.

Record Coord : Type := mkCoord { coord_value : CoordData; coord_default : CoordData }.

Record World : Type := mkWorld {
  settings : list Setting;          (* Setting::List *)
  setDefault_calls : list string;   (* names on which setDefault() was called *)
  coords : list Coord;              (* coords[CoordIndex::Begin .. End) *)
  coord_select : nat;               (* gc_state.modal.coord_select *)
  coord_system : CoordData;         (* gc_state.coord_system *)
  report_wco_counter : Z;
  info_log : list string
}.

Definition flag_set (restore_flag bit : Z) : bool :=
  negb (Z.land restore_flag bit =? 0)%Z.

(** [!s->getType() == WEBSET]: the negation applies to the enumerator
    first and yields a [bool]; the comparison is then between that
    [bool], promoted to 0 or 1, and the value of [WEBSET]. *)
Definition wifi_condition (s : Setting) : bool :=
  (Z.b2z (type_code (getType s) =? 0) =? type_code WEBSET)%Z.

(** The condition of the Defaults pass. *)
Definition defaults_condition (restore_startup : bool) (s : Setting) : bool :=
  match getDescription s with
  | Some _ => false
  | None =>
      if restore_startup then true
      else negb (String.eqb (getName s) "Line0") && negb (String.eqb (getName s) "Line1")
  end.

(** [for (Setting* s : Setting::List) if (cond) s->setDefault();] *)
Fixpoint restore_pass (cond : Setting -> bool) (l : list Setting)
  : list Setting * list string :=
  match l with
  | [] => ([], [])
  | s :: rest =>
      let '(rest', calls) := restore_pass cond rest in
      if cond s then (setDefault s :: rest', getName s :: calls)
      else (s :: rest', calls)
  end.

Definition coord_setDefault (c : Coord) : Coord :=
  mkCoord (coord_default c) (coord_default c).

Definition settings_restore (restore_flag : Z) (w : World) : World :=
  let w1 :=
    if flag_set restore_flag Wifi then
      let '(l, calls) := restore_pass wifi_condition (settings w) in
      mkWorld l (setDefault_calls w ++ calls) (coords w) (coord_select w)
              (coord_system w) (report_wco_counter w) (info_log w)
    else w in
  let w2 :=
    if flag_set restore_flag Defaults then
      let restore_startup := flag_set restore_flag StartupLines in
      let '(l, calls) := restore_pass (defaults_condition restore_startup) (settings w1) in
      mkWorld l (setDefault_calls w1 ++ calls) (coords w1) (coord_select w1)
              (coord_system w1) (report_wco_counter w1)
              (info_log w1 ++ ["Settings reset done"])
    else w1 in
  let w3 :=
    if flag_set restore_flag Parameters then
      let cs := map coord_setDefault (coords w2) in
      let sys :=
        match nth_error cs (coord_select w2) with
        | Some c => coord_value c
        | None => coord_system w2
        end in
      mkWorld (settings w2) (setDefault_calls w2) cs (coord_select w2)
              sys 0%Z (info_log w2)
    else w2 in
  mkWorld (settings w3) (setDefault_calls w3) (coords w3) (coord_select w3)
          (coord_system w3) (report_wco_counter w3)
          (info_log w3 ++ ["Position offsets reset done"]).

End Restore.

(** The enumerator values when [GRBL] is declared as 1 and the others
    follow it in order. *)
Definition declared_type_code (t : type_t) : Z :=
  match t with
  | GRBL => 1 | EXTENDED => 2 | WEBSET => 3 | PIN => 4 | GRBLCMD => 5 | WEBCMD => 6
  end%Z.

End Restore.

(** ** Machine state, check mode and homing *)

Module Machine.

Definition AxisMask : Set := Z.

Definition bitnum_is_true (mask : AxisMask) (bit : Z) : bool := Z.testbit mask bit.
Definition bitnum_to_mask (bit : Z) : AxisMask := Z.shiftl 1 bit.

(** [axisConfig->_homing]: absent ([nullptr]) or present with its
    [_allow_single_axis] switch. *)
Record HomingCfg : Set := mkHoming { allow_single_axis : bool }.
Record Axis : Set := mkAxis { axis_homing : option HomingCfg }.

Inductive Message : Set := Enabled | Disabled | AlarmUnlock.

(** The part of the controller these commands read and write. *)
Record Machine : Set := mkMachine {
  sys_state : State;               (* sys.state *)
  sys_abort : bool;                (* sys.abort *)
  pins_block_unlock : bool;        (* config->_control->pins_block_unlock() *)
  safety_door_ajar : bool;         (* config->_control->safety_door_ajar() *)
  homingMask : AxisMask;           (* Machine::Axes::homingMask *)
  axes : list Axis;                (* Axes::_axis[0 .. _numberAxis) *)
  feedback : list Message          (* report_feedback_message() output *)
}.

Definition state_is (m : Machine) (s : State) : bool := State_eqb (sys_state m) s.

Definition set_state (m : Machine) (s : State) : Machine :=
  mkMachine s (sys_abort m) (pins_block_unlock m) (safety_door_ajar m)
            (homingMask m) (axes m) (feedback m).

Definition set_abort (m : Machine) : Machine :=
  mkMachine (sys_state m) true (pins_block_unlock m) (safety_door_ajar m)
            (homingMask m) (axes m) (feedback m).

Definition report_feedback_message (m : Machine) (msg : Message) : Machine :=
  mkMachine (sys_state m) (sys_abort m) (pins_block_unlock m) (safety_door_ajar m)
            (homingMask m) (axes m) (feedback m ++ [msg]).

(** [toggle_check_mode] *)
Definition toggle_check_mode (value : option string) (auth_level : AuthenticationLevel)
           (m : Machine) : Error * Machine :=
  if state_is m ConfigAlarm then (ConfigurationInvalid, m)
  else if state_is m CheckMode then
    (Ok, set_abort (report_feedback_message m Disabled))
  else if negb (state_is m Idle) then (IdleError, m)
  else (Ok, report_feedback_message (set_state m CheckMode) Enabled).

(** What the homing commands leave behind: the machine, and the trace of
    calls into the motion system and of logged errors. *)
Inductive Event : Set :=
| RunCycles (axisMask : AxisMask)   (* Machine::Homing::run_cycles(axisMask) was called *)
| CycleDone (axisMask : AxisMask)   (* the wait loop after it saw the state leave Homing *)
| LogError (msg : string).

Record World : Set := mkWorld { machine : Machine; trace : list Event }.

Definition homing_allowed (a : Axis) : bool :=
  match axis_homing a with
  | Some h => allow_single_axis h
  | None => false
  end.

(** The loop [for (axis = 0; axis < n_axis; axis++)] of [home]: [true] when
    it returns [SingleAxisHoming]. *)
Fixpoint single_axis_prohibited (axisMask : AxisMask) (l : list Axis) (axis : Z) : bool :=
  match l with
  | [] => false
  | a :: rest =>
      if bitnum_is_true axisMask axis then
        if homing_allowed a then single_axis_prohibited axisMask rest (axis + 1)
        else true
      else single_axis_prohibited axisMask rest (axis + 1)
  end.

Definition isdigit (c : ascii) : bool :=
  let n := N_of_ascii c in ((48 <=? n) && (n <=? 57))%N.

Definition digit_value (c : ascii) : Z := Z.of_N (N_of_ascii c) - 48.

Section Homing.

(** The motion system and the axis tables live in other files of the
    repository; they are parameters of the orchestrator. *)
Variable AllCycles : AxisMask.                               (* Machine::Homing::AllCycles *)
Variable run_cycles : AxisMask -> Machine -> Machine.        (* Machine::Homing::run_cycles *)
Variable protocol_execute_realtime : Machine -> Machine.
Variable axis_mask_from_cycle : Machine -> Z -> AxisMask.    (* Machine::Homing::axis_mask_from_cycle *)
Variable namesToMask : Machine -> string -> AxisMask -> bool * AxisMask.  (* Axes::namesToMask *)

(** [do { protocol_execute_realtime(); } while (state_is(State::Homing));]
    with a bound on the number of rounds; [None] when the bound is
    reached with the state still Homing. *)
Fixpoint wait_homing (fuel : nat) (m : Machine) : option Machine :=
  match fuel with
  | O => None
  | S fuel' =>
      let m' := protocol_execute_realtime m in
      if state_is m' Homing then wait_homing fuel' m' else Some m'
  end.

(** [home] *)
Definition home (fuel : nat) (axisMask : AxisMask) (w : World) : option (Error * World) :=
  let m := machine w in
  if pins_block_unlock m then Some (CheckControlPins, w)
  else if negb (axisMask =? AllCycles)%Z && single_axis_prohibited axisMask (axes m) 0
  then Some (SingleAxisHoming, w)
  else if state_is m ConfigAlarm then Some (ConfigurationInvalid, w)
  else if (homingMask m =? 0)%Z then Some (SettingDisabled, w)
  else if safety_door_ajar m then Some (CheckDoor, w)
  else
    match wait_homing fuel (run_cycles axisMask m) with
    | Some m' => Some (Ok, mkWorld m' (trace w ++ [RunCycles axisMask; CycleDone axisMask]))
    | None => None
    end.

(** First loop of [home_all]: [inl msg] when it returns [InvalidValue]
    after logging [msg], [inr ndigits] when it runs to the end. *)
Fixpoint count_cycle_digits (m : Machine) (value : string) (ndigits : nat)
  : string + nat :=
  match value with
  | EmptyString => inr ndigits
  | String cycleName rest =>
      if isdigit cycleName then
        if (axis_mask_from_cycle m (digit_value cycleName) =? 0)%Z
        then inl ("No axes for homing cycle " ++ String cycleName "")%string
        else count_cycle_digits m rest (S ndigits)
      else count_cycle_digits m rest ndigits
  end.

(** Second loop of [home_all]: one [home] per character, in the order of
    the string, stopping at the first result that is not [Ok]. *)
Fixpoint home_cycles (fuel : nat) (value : string) (retval : Error) (w : World)
  : option (Error * World) :=
  match value with
  | EmptyString => Some (retval, w)
  | String cycleName rest =>
      let requestedAxes := axis_mask_from_cycle (machine w) (digit_value cycleName) in
      match home fuel requestedAxes w with
      | None => None
      | Some (Ok, w') => home_cycles fuel rest Ok w'
      | Some (err, w') => Some (err, w')
      end
  end.

Definition log_error (w : World) (msg : string) : World :=
  mkWorld (machine w) (trace w ++ [LogError msg]).

(** [home_all] *)
Definition home_all (fuel : nat) (value : option string) (auth_level : AuthenticationLevel)
           (w : World) : option (Error * World) :=
  match value with
  | None => home fuel AllCycles w
  | Some v0 =>
      let v := c_str v0 in
      let lenValue := String.length v in
      match count_cycle_digits (machine w) v 0 with
      | inl msg => Some (InvalidValue, log_error w msg)
      | inr ndigits =>
          if negb (ndigits =? 0)%nat then
            if negb (ndigits =? lenValue)%nat
            then Some (InvalidValue, log_error w "Invalid homing cycle list")
            else home_cycles fuel v Ok w
          else
            let '(ok, requestedAxes) := namesToMask (machine w) v AllCycles in
            if negb ok then Some (InvalidValue, w)
            else home fuel requestedAxes w
      end
  end.

Definition home_x (fuel : nat) (w : World) := home fuel (bitnum_to_mask 0) w.
Definition home_y (fuel : nat) (w : World) := home fuel (bitnum_to_mask 1) w.
Definition home_z (fuel : nat) (w : World) := home fuel (bitnum_to_mask 2) w.

End Homing.

End Machine.

(** ** String helpers shared by the passthrough command and the resolver *)

Module StringUtil.

Definition tolower (c : ascii) : ascii :=
  let n := N_of_ascii c in
  if ((65 <=? n) && (n <=? 90))%N then ascii_of_N (n + 32) else c.

Definition isspace (c : ascii) : bool :=
  let n := N_of_ascii c in
  ((n =? 32) || ((9 <=? n) && (n <=? 13)))%N.

(** Modelled from the spec: [string_util::equal_ignore_case] is not in this
    file; names are compared exactly, ignoring letter case. *)
Fixpoint equal_ignore_case (a b : string) : bool :=
  match a, b with
  | EmptyString, EmptyString => true
  | String x a', String y b' => Ascii.eqb (tolower x) (tolower y) && equal_ignore_case a' b'
  | _, _ => false
  end.

(** Modelled from the spec: [string_util::split] is not in this file; the
    line is cut at the first separator.  The result is the key and, when
    the separator was found, the characters after it. *)
Fixpoint split (input : string) (delim : ascii) : string * string_view :=
  match input with
  | EmptyString => ("", None)
  | String c rest =>
      if Ascii.eqb c delim then ("", Some rest)
      else let '(k, v) := split rest delim in (String c k, v)
  end.

Fixpoint trim_left (s : string) : string :=
  match s with
  | EmptyString => ""
  | String c rest => if isspace c then trim_left rest else s
  end.

Fixpoint rev_string (s acc : string) : string :=
  match s with
  | EmptyString => acc
  | String c rest => rev_string rest (String c acc)
  end.

(** Modelled from the spec: [string_util::trim] is not in this file; the
    key is trimmed of surrounding whitespace. *)
Definition trim (s : string) : string :=
  rev_string (trim_left (rev_string (trim_left s) "")) "".

(** Modelled from the spec: [string_util::split_prefix] is not in this
    file; the value is a list of comma-separated tokens, taken from the
    left until nothing remains. *)
Fixpoint tokens_from (cur : string) (rest : string) (delim : ascii) : list string :=
  match rest with
  | EmptyString => [rev_string cur ""]
  | String c rest' =>
      if Ascii.eqb c delim then
        rev_string cur "" ::
          match rest' with
          | EmptyString => []
          | _ => tokens_from "" rest' delim
          end
      else tokens_from (String c cur) rest' delim
  end.

Definition split_tokens (s : string) (delim : ascii) : list string :=
  match s with
  | EmptyString => []
  | _ => tokens_from "" s delim
  end.

Definition is_decimal_digit (c : ascii) : bool :=
  let n := N_of_ascii c in ((48 <=? n) && (n <=? 57))%N.

Fixpoint decimal_digits (s : string) (acc : Z) : option Z :=
  match s with
  | EmptyString => Some acc
  | String c rest =>
      if is_decimal_digit c
      then decimal_digits rest (10 * acc + (Z.of_N (N_of_ascii c) - 48))
      else None
  end.

(** Modelled from the spec: [string_util::from_decimal] is not in this
    file; a number is a non-empty run of decimal digits. *)
Definition from_decimal (s : string) : option Z :=
  match s with
  | EmptyString => None
  | _ => decimal_digits s 0
  end.

Fixpoint last_char (s : string) : option ascii :=
  match s with
  | EmptyString => None
  | String c EmptyString => Some c
  | String _ rest => last_char rest
  end.

Fixpoint remove_suffix1 (s : string) : string :=
  match s with
  | EmptyString => ""
  | String c EmptyString => ""
  | String c rest => String c (remove_suffix1 rest)
  end.

End StringUtil.

(** ** UART passthrough *)

Module Passthrough.

Import StringUtil.

Record Uart : Set := mkUart {
  name : string;
  passthrough_baud : Z;            (* _passthrough_baud *)
  in_passthrough : bool;           (* between enterPassthrough() and exitPassthrough() *)
  uart_written : string            (* bytes handed to write() *)
}.

Record UartChannel : Set := mkChannel {
  uart_num_of : nat;               (* uart_num() *)
  channel_paused : bool
}.

(** The calling channel [out], the configured UARTs and the UART channels.
    [secondary_uarts] holds [config->_uarts[1 .. MAX_N_UARTS)], the only
    entries the command looks at: its element [i] is UART number [i + 1],
    and [None] is a null entry.  [uart_channels] is
    [config->_uart_channels] up to its null terminator. *)
Record World : Set := mkWorld {
  out_paused : bool;
  out_written : string;
  out_log : list string;
  secondary_uarts : list (option Uart);
  uart_channels : list UartChannel
}.

Definition MAX_N_UARTS (w : World) : nat := S (List.length (secondary_uarts w)).

Definition log_error_to (w : World) (msg : string) : World :=
  mkWorld (out_paused w) (out_written w) (out_log w ++ [msg])
          (secondary_uarts w) (uart_channels w).

(** The [while (split_prefix(rest, first, ','))] loop: [None] when a
    timeout token is not a number, else the timeout in ms and the name. *)
Fixpoint parse_tokens (toks : list string) (timeout : Z) (uart_name : string)
  : option (Z * string) :=
  match toks with
  | [] => Some (timeout, uart_name)
  | first :: rest =>
      if equal_ignore_case first "auto" then parse_tokens rest timeout "auto"
      else
        match last_char first with
        | Some c =>
            if Ascii.eqb (tolower c) "s" then
              match from_decimal (remove_suffix1 first) with
              | Some t => parse_tokens rest (t * 1000) uart_name
              | None => None
              end
            else parse_tokens rest timeout first
        | None => parse_tokens rest timeout first
        end
  end.

Definition parse_value (value : option string) : option (Z * string) :=
  match value with
  | None => Some (2000%Z, "auto")
  | Some v => parse_tokens (split_tokens (c_str v) ",") 2000 "auto"
  end.

(** Search for "auto": the value of [uart_num] when the loop is left. *)
Fixpoint find_auto (l : list (option Uart)) (uart_num : nat) : nat :=
  match l with
  | [] => uart_num
  | downstream_uart :: rest =>
      match downstream_uart with
      | Some u =>
          if negb (passthrough_baud u =? 0)%Z then uart_num
          else find_auto rest (S uart_num)
      | None => find_auto rest (S uart_num)
      end
  end.

(** Search by name: [inl msg] when the loop returns [InvalidValue] from
    inside, else the value of [uart_num] when the loop is left. *)
Fixpoint find_named (uart_name : string) (l : list (option Uart)) (uart_num : nat)
  : string + nat :=
  match l with
  | [] => inr uart_num
  | downstream_uart :: rest =>
      match downstream_uart with
      | Some u =>
          if String.eqb (name u) uart_name then
            if (passthrough_baud u =? 0)%Z
            then inl (uart_name ++ " does not have passthrough_baud configured")%string
            else inr uart_num
          else find_named uart_name rest (S uart_num)
      | None => find_named uart_name rest (S uart_num)
      end
  end.

(** The loop over [config->_uart_channels]: pause the first channel whose
    [uart_num()] is the chosen one (resume it, for [paused = false]). *)
Fixpoint set_channel_paused (paused : bool) (uart_num : nat) (l : list UartChannel)
  : list UartChannel :=
  match l with
  | [] => []
  | channel :: rest =>
      if (uart_num_of channel =? uart_num)%nat
      then mkChannel (uart_num_of channel) paused :: rest
      else channel :: set_channel_paused paused uart_num rest
  end.

Definition update_uart (f : Uart -> Uart) (uart_num : nat) (l : list (option Uart))
  : list (option Uart) :=
  firstn (uart_num - 1) l ++
    match nth_error l (uart_num - 1) with
    | Some (Some u) => [Some (f u)]
    | Some None => [None]
    | None => []
    end ++ skipn uart_num l.

Definition set_passthrough (b : bool) (u : Uart) : Uart :=
  mkUart (name u) (passthrough_baud u) b (uart_written u).

Definition uart_write (data : string) (u : Uart) : Uart :=
  mkUart (name u) (passthrough_baud u) (in_passthrough u) (uart_written u ++ data).

(** One round of the relay loop as the outside world drives it: the tick
    count at the loop test, what each timed read returned (at most the
    256 bytes of the buffer are taken) and the tick count after a read
    that returned something. *)
Record Round : Set := mkRound {
  ticks_at_test : Z;
  upstream_bytes : string;
  ticks_after_upstream : Z;
  downstream_bytes : string;
  ticks_after_downstream : Z
}.

Fixpoint take (n : nat) (s : string) : string :=
  match n, s with
  | S n', String c rest => String c (take n' rest)
  | _, _ => ""
  end.

Definition wrap32 (z : Z) : Z := z mod 2 ^ 32.

(** [while (xTaskGetTickCount() - last_ticks < timeout) { ... }] over the
    rounds the outside world provides; [None] when they run out with the
    loop still going. *)
Fixpoint relay (rounds : list Round) (timeout last_ticks : Z) (uart_num : nat) (w : World)
  : option World :=
  match rounds with
  | [] => None
  | r :: rest =>
      if (wrap32 (ticks_at_test r - last_ticks) <? wrap32 timeout)%Z then
        let up := take 256 (upstream_bytes r) in
        let '(last1, w1) :=
          if (0 <? String.length up)%nat
          then (ticks_after_upstream r,
                mkWorld (out_paused w) (out_written w) (out_log w)
                        (update_uart (uart_write up) uart_num (secondary_uarts w))
                        (uart_channels w))
          else (last_ticks, w) in
        let down := take 256 (downstream_bytes r) in
        let '(last2, w2) :=
          if (0 <? String.length down)%nat
          then (ticks_after_downstream r,
                mkWorld (out_paused w1) (out_written w1 ++ down) (out_log w1)
                        (secondary_uarts w1) (uart_channels w1))
          else (last1, w1) in
        relay rest timeout last2 uart_num w2
      else Some w
  end.

(** [uartPassthrough]; [start_ticks] is the tick count read before the
    relay loop. *)
Definition uartPassthrough (rounds : list Round) (start_ticks : Z)
           (value : option string) (auth_level : AuthenticationLevel) (w : World)
  : option (Error * World) :=
  match parse_value value with
  | None => Some (InvalidValue, log_error_to w "Invalid timeout number")
  | Some (timeout, uart_name) =>
      let found :=
        if String.eqb uart_name "auto" then
          let uart_num := find_auto (secondary_uarts w) 1 in
          if (uart_num =? MAX_N_UARTS w)%nat
          then inl "No uart has passthrough_baud configured"
          else inr uart_num
        else
          match find_named uart_name (secondary_uarts w) 1 with
          | inl msg => inl msg
          | inr uart_num =>
              if (uart_num =? MAX_N_UARTS w)%nat
              then inl (uart_name ++ " does not exist")%string
              else inr uart_num
          end in
      match found with
      | inl msg => Some (InvalidValue, log_error_to w msg)
      | inr uart_num =>
          (* out.pause(); channel->pause(); downstream_uart->enterPassthrough(); *)
          let w1 := mkWorld true (out_written w) (out_log w)
                            (update_uart (set_passthrough true) uart_num (secondary_uarts w))
                            (set_channel_paused true uart_num (uart_channels w)) in
          match relay rounds timeout start_ticks uart_num w1 with
          | None => None
          | Some w2 =>
              (* downstream_uart->exitPassthrough(); channel->resume(); out.resume(); *)
              Some (Ok,
                    mkWorld false (out_written w2) (out_log w2)
                            (update_uart (set_passthrough false) uart_num (secondary_uarts w2))
                            (set_channel_paused false uart_num (uart_channels w2)))
          end
      end
  end.

End Passthrough.

(** ** The resolver *)

Module Dispatch.

Import StringUtil.

(** What the configuration tree's by-name lookup
    ([RuntimeSetting rts(key, value, out); config->group(rts);]) can end
    in: [rts.isHandled_] set or not, or one of the two exceptions the
    resolver catches. *)
Inductive TreeOutcome : Set :=
| Handled
| NotHandled
| ParseException (line : Z) (what : string)
| AssertionFailed (what : string).

Inductive LogEntry : Set :=
| ValidationError (what : string)
| ConfigParseError (line : Z) (what : string)
| ConfigChangeFailed (what : string).

Section Dispatch.

(** The rest of the controller (configuration tree, planner, ...). *)
Variable Ext : Type.

Record World : Type := mkWorld {
  settings : list Setting;        (* Setting::List *)
  dec : Codec.DecState;           (* the static buffer of uriDecode and its error log *)
  out : list string;              (* lines written to the channel *)
  log : list LogEntry;
  ext : Ext
}.

Record Command : Type := mkCommand {
  cmd_name : string;                    (* getName() *)
  cmd_grbl_name : option string;        (* getGrblName() *)
  cmd_permissions : permissions_t;
  synchronous : bool;
  action : option string -> AuthenticationLevel -> World -> Error * World
}.

Variable ENABLE_AUTHENTICATION : bool.
Variable commands : list Command.                               (* Command::List *)
Variable protocol_buffer_synchronize : World -> World.
Variable runtime_setting : string -> string_view -> World -> TreeOutcome * World.
Variable validate : World -> option string * World.             (* Some: an exception *)
Variable afterParse : World -> option string * World.           (* Some: AssertionFailed *)
Variable setStringValue : Setting -> string -> Error * Setting. (* virtual, per setting *)
Variable getCompatibleValue : Setting -> string.                (* virtual, per setting *)
Variable regexMatch : string -> string -> bool.                 (* Regex.cpp *)

Definition with_settings (w : World) (l : list Setting) : World :=
  mkWorld l (dec w) (out w) (log w) (ext w).

Definition with_dec (w : World) (d : Codec.DecState) : World :=
  mkWorld (settings w) d (out w) (log w) (ext w).

Definition log_error (w : World) (e : LogEntry) : World :=
  mkWorld (settings w) (dec w) (out w) (log w ++ [e]) (ext w).

(** [show_setting] *)
Definition show_setting (name value : string) (description : option string) (w : World)
  : World :=
  let line := ("$" ++ name ++ "=" ++ Codec.uriEncodeGrblCharacters value ++
               match description with
               | Some d => "    " ++ d
               | None => ""
               end)%string in
  mkWorld (settings w) (dec w) (out w ++ [line]) (log w) (ext w).

Definition command_matches (key : string) (cp : Command) : bool :=
  equal_ignore_case (cmd_name cp) key ||
  match cmd_grbl_name cp with
  | Some g => equal_ignore_case g key
  | None => false
  end.

(** The body of the command loop once [cp] has matched. *)
Definition run_command (cp : Command) (value : string_view)
           (auth_level : AuthenticationLevel) (w : World) : Error * World :=
  if Auth.auth_failed ENABLE_AUTHENTICATION (cmd_permissions cp) value auth_level
  then (AuthenticationFailed, w)
  else
    let w1 := if synchronous cp then protocol_buffer_synchronize w else w in
    if sv_empty value then action cp None auth_level w1
    else action cp (Some (c_str (sv_str value))) auth_level w1.

(** [for (Command* cp : Command::List)]; [None] when the loop ends
    without returning. *)
Fixpoint command_loop (l : list Command) (key : string) (value : string_view)
         (auth_level : AuthenticationLevel) (w : World) : option (Error * World) :=
  match l with
  | [] => None
  | cp :: rest =>
      if command_matches key cp then Some (run_command cp value auth_level w)
      else command_loop rest key value auth_level w
  end.

(** [return s->setStringValue(uriDecode(value));] *)
Definition write_setting (s : Setting) (value : string_view) (w : World)
  : Error * Setting * World :=
  let '(str, d) := Codec.uriDecode value (dec w) in
  let '(err, s') := setStringValue s str in
  (err, s', with_dec w d).

(** The body of both setting loops once [s] has matched: display under
    the name and with the value given, or write. *)
Definition access_setting (shown_name shown_value : string) (s : Setting)
           (value : string_view) (w : World) : Error * Setting * World :=
  if sv_empty value then (Ok, s, show_setting shown_name shown_value None w)
  else write_setting s value w.

(** The loop over [Setting::List] by text name; the list it returns is
    the one it went through, with the setting it wrote replaced. *)
Fixpoint name_loop (l : list Setting) (key : string) (value : string_view) (w : World)
  : option (Error * list Setting * World) :=
  match l with
  | [] => None
  | s :: rest =>
      if equal_ignore_case (getName s) key then
        let '(err, s', w') := access_setting (getName s) (getStringValue s) s value w in
        Some (err, s' :: rest, w')
      else
        match name_loop rest key value w with
        | Some (err, rest', w') => Some (err, s :: rest', w')
        | None => None
        end
  end.

Definition grbl_name_matches (key : string) (s : Setting) : bool :=
  match getGrblName s with
  | Some g => equal_ignore_case g key
  | None => false
  end.

(** The loop over [Setting::List] by compatible name. *)
Fixpoint grbl_name_loop (l : list Setting) (key : string) (value : string_view) (w : World)
  : option (Error * list Setting * World) :=
  match l with
  | [] => None
  | s :: rest =>
      let next :=
        match grbl_name_loop rest key value w with
        | Some (err, rest', w') => Some (err, s :: rest', w')
        | None => None
        end in
      match getGrblName s with
      | Some g =>
          if equal_ignore_case g key then
            let '(err, s', w') := access_setting g (getCompatibleValue s) s value w in
            Some (err, s' :: rest, w')
          else next
      | None => next
      end
  end.

(** The display loop over partial matches. *)
Fixpoint pattern_loop (l : list Setting) (key : string) (found : bool) (w : World)
  : bool * World :=
  match l with
  | [] => (found, w)
  | s :: rest =>
      let test := getName s in
      if regexMatch key test
      then pattern_loop rest key true (show_setting test (getStringValue s) None w)
      else pattern_loop rest key found w
  end.

(** What follows [if (rts.isHandled_)]: validation and the after-parse
    pass when a value was given. *)
Definition after_handled (value : string_view) (w1 : World) : Error * World :=
  if negb (sv_empty value) then
    match validate w1 with
    | (Some what, w2) => (ConfigurationInvalid, log_error w2 (ValidationError what))
    | (None, w2) =>
        match afterParse w2 with
        | (Some what, w3) => (ConfigurationInvalid, log_error w3 (ConfigChangeFailed what))
        | (None, w3) => (Ok, w3)
        end
    end
  else (Ok, w1).

(** [do_command_or_setting] *)
Definition do_command_or_setting (key : string) (value : string_view)
           (auth_level : AuthenticationLevel) (w : World) : Error * World :=
  match command_loop commands key value auth_level w with
  | Some r => r
  | None =>
      match runtime_setting key value w with
      | (ParseException line what, w1) =>
          (ConfigurationInvalid, log_error w1 (ConfigParseError line what))
      | (AssertionFailed what, w1) =>
          (ConfigurationInvalid, log_error w1 (ConfigChangeFailed what))
      | (Handled, w1) => after_handled value w1
      | (NotHandled, w1) =>
          match name_loop (settings w1) key value w1 with
          | Some (err, l, w2) => (err, with_settings w2 l)
          | None =>
              match grbl_name_loop (settings w1) key value w1 with
              | Some (err, l, w2) => (err, with_settings w2 l)
              | None =>
                  if sv_empty value then
                    let '(found, w2) := pattern_loop (settings w1) key false w1 in
                    if found then (Ok, w2) else (InvalidStatement, w2)
                  else (InvalidStatement, w1)
              end
          end
      end
  end.

(** [settings_execute_line]; the line starts with '$' or '['. *)
Definition settings_execute_line (line : string) (auth_level : AuthenticationLevel)
           (w : World) : Error * World :=
  match c_str line with
  | EmptyString => do_command_or_setting "" None auth_level w
  | String first rest =>
      let '(key, value) := split rest (if Ascii.eqb first "[" then "]" else "=")%char in
      do_command_or_setting (trim key) value auth_level w
  end.

End Dispatch.

End Dispatch.

(** ** Vocabulary of the specification *)

Module SpecWords.

(** The pre-run interlocks of a homing request that fail in machine [m],
    each by the error the specification names for it, listed in the order
    in which [home] tests them. *)
Definition failing_interlocks (AllCycles axisMask : Machine.AxisMask) (m : Machine.Machine)
  : list Error :=
  (if Machine.pins_block_unlock m then [CheckControlPins] else [])
    ++ (if negb (axisMask =? AllCycles)%Z
           && existsb (fun '(i, a) => Machine.bitnum_is_true axisMask (Z.of_nat i)
                                      && negb (Machine.homing_allowed a))
                      (combine (seq 0 (List.length (Machine.axes m))) (Machine.axes m))
        then [SingleAxisHoming] else [])
    ++ (if State_eqb (Machine.sys_state m) ConfigAlarm then [ConfigurationInvalid] else [])
    ++ (if (Machine.homingMask m =? 0)%Z then [SettingDisabled] else [])
    ++ (if Machine.safety_door_ajar m then [CheckDoor] else []).

Fixpoint string_forallb (f : ascii -> bool) (s : string) : bool :=
  match s with
  | EmptyString => true
  | String c rest => f c && string_forallb f rest
  end.

Fixpoint string_existsb (f : ascii -> bool) (s : string) : bool :=
  match s with
  | EmptyString => false
  | String c rest => f c || string_existsb f rest
  end.

(** The homing requests a trace records, in order. *)
Fixpoint requests (tr : list Machine.Event) : list Machine.AxisMask :=
  match tr with
  | [] => []
  | Machine.RunCycles mask :: rest => mask :: requests rest
  | _ :: rest => requests rest
  end.

End SpecWords.

(** ** Concrete configurations used to exercise the model *)

Module Fixtures.

(** Two flat settings: a Grbl-compatible one with a legacy name and a
    WebUI one. *)
Definition foo : Setting :=
  mkSetting "Foo" (Some "130") GRBL WA None "bar" "dflt".

Definition web : Setting :=
  mkSetting "Sta/SSID" None WEBSET WA None "home" "".

Definition restore_world : Restore.World unit :=
  Restore.mkWorld unit [foo; web] [] [] 0 tt 3%Z [].

(** [SettingsRestore]: four distinct bits. *)
Definition bit_Defaults : Z := 1.
Definition bit_Parameters : Z := 2.
Definition bit_StartupLines : Z := 4.
Definition bit_Wifi : Z := 16.

Definition restore_wifi (w : Restore.World unit) : Restore.World unit :=
  Restore.settings_restore Restore.declared_type_code
    bit_Defaults bit_Parameters bit_StartupLines bit_Wifi unit bit_Wifi w.

Definition machine_in (s : State) : Machine.Machine :=
  Machine.mkMachine s false false false 7%Z
    [Machine.mkAxis (Some (Machine.mkHoming true));
     Machine.mkAxis (Some (Machine.mkHoming true));
     Machine.mkAxis (Some (Machine.mkHoming true))]
    [].

(** A three-axis machine whose cycle 1 homes X and Y and whose cycle 2
    homes Z; the motion system enters Homing and the next round of
    real-time processing finds it finished. *)
Definition all_cycles : Machine.AxisMask := 0%Z.

Definition run_cycles (axisMask : Machine.AxisMask) (m : Machine.Machine) : Machine.Machine :=
  Machine.set_state m Homing.

Definition protocol_execute_realtime (m : Machine.Machine) : Machine.Machine :=
  Machine.set_state m Idle.

Definition axis_mask_from_cycle (m : Machine.Machine) (cycle : Z) : Machine.AxisMask :=
  if (cycle =? 1)%Z then 3%Z else if (cycle =? 2)%Z then 4%Z else 0%Z.

Definition axis_index (c : ascii) : option Z :=
  if Ascii.eqb c "X" then Some 0%Z
  else if Ascii.eqb c "Y" then Some 1%Z
  else if Ascii.eqb c "Z" then Some 2%Z
  else None.

(** Modelled from the spec: [Axes::namesToMask] is not in this file; every
    axis letter adds its bit to the mask, an unrecognized letter fails. *)
Fixpoint namesToMask_from (names : string) (ok : bool) (mask : Machine.AxisMask)
  : bool * Machine.AxisMask :=
  match names with
  | EmptyString => (ok, mask)
  | String c rest =>
      match axis_index c with
      | Some i => namesToMask_from rest ok (Z.lor mask (Machine.bitnum_to_mask i))
      | None => namesToMask_from rest false mask
      end
  end.

Definition namesToMask (m : Machine.Machine) (names : string) (mask : Machine.AxisMask)
  : bool * Machine.AxisMask :=
  namesToMask_from names true mask.

Definition home_all (value : option string) (w : Machine.World) :=
  Machine.home_all all_cycles run_cycles protocol_execute_realtime
                   axis_mask_from_cycle namesToMask 1 value LEVEL_GUEST w.

Definition world_in (s : State) : Machine.World := Machine.mkWorld (machine_in s) [].

(** One secondary UART without a passthrough baud rate, and its channel. *)
Definition uart1 : Passthrough.Uart := Passthrough.mkUart "uart1" 0%Z false "".

Definition passthrough_world : Passthrough.World :=
  Passthrough.mkWorld false "" [] [Some uart1; None] [Passthrough.mkChannel 1 false].

(** A registry with the two settings above, one command in the manner of
    [get_report_build_info], no configuration-tree settings, a validation
    hook that accepts every value, and a pattern matcher that accepts the
    names the key is a prefix of. *)
Definition get_report_build_info (value : option string) (auth_level : AuthenticationLevel)
           (w : Dispatch.World unit) : Error * Dispatch.World unit :=
  match value with
  | None =>
      (Ok, Dispatch.mkWorld unit (Dispatch.settings unit w) (Dispatch.dec unit w)
             (Dispatch.out unit w ++ ["[VER:]"]) (Dispatch.log unit w) (Dispatch.ext unit w))
  | Some _ => (InvalidStatement, w)
  end.

Definition commands : list (Dispatch.Command unit) :=
  [Dispatch.mkCommand unit "Build/Info" (Some "I") WG false get_report_build_info].

Definition setStringValue (s : Setting) (v : string) : Error * Setting :=
  (Ok, mkSetting (getName s) (getGrblName s) (getType s) (getPermissions s)
                 (getDescription s) v (getDefaultString s)).

Definition dispatch_world : Dispatch.World unit :=
  Dispatch.mkWorld unit [foo; web] (Codec.mkDec "" []) [] [] tt.

Definition settings_execute_line (line : string) (auth_level : AuthenticationLevel)
           (w : Dispatch.World unit) : Error * Dispatch.World unit :=
  Dispatch.settings_execute_line unit true commands (fun w => w)
    (fun _ _ w => (Dispatch.NotHandled, w)) (fun w => (None, w)) (fun w => (None, w))
    setStringValue getStringValue String.prefix line auth_level w.

Definition do_command_or_setting (key : string) (value : string_view)
           (auth_level : AuthenticationLevel) (w : Dispatch.World unit)
  : Error * Dispatch.World unit :=
  Dispatch.do_command_or_setting unit true commands (fun w => w)
    (fun _ _ w => (Dispatch.NotHandled, w)) (fun w => (None, w)) (fun w => (None, w))
    setStringValue getStringValue String.prefix key value auth_level w.

End Fixtures.

(** ** Alarm unlock *)

Module Unlock.

Inductive ExecAlarm : Set := ControlPin | GCodeError.

(** What the unlock command does besides changing the machine record. *)
Inductive Event : Set :=
| SendAlarm (alarm : ExecAlarm)      (* send_alarm(alarm) *)
| LogInfo (msg : string)
| SetAllAxesHomed                    (* Homing::set_all_axes_homed() *)
| ReleaseMotors                      (* config->_kinematics->releaseMotors(...) *)
| RunAfterUnlock.                    (* config->_macros->_after_unlock.run(&out) *)

Record World : Set := mkWorld {
  machine : Machine.Machine;
  stuck : bool;                      (* config->_control->stuck() *)
  report_status : string;            (* config->_control->report_status() *)
  events : list Event
}.





End Unlock.

(** ** Limit display *)

Module Limits.

Section Limits.

(** [MAX_N_AXIS] and [Machine::Axes::motor_bit] are declared in other
    files. *)
Variable MAX_N_AXIS : nat.
Variable motor_bit : nat -> nat -> Z.

(** [names[axis]]; the character after the last letter is the terminator. *)
Definition axis_letter (names : string) (axis : nat) : ascii :=
  match String.get axis names with
  | Some c => c
  | None => zero
  end.

(** One loop of [limit_set]: the rounds from [axis] on, [n] of them. *)
Fixpoint limit_letters (names : string) (motor : nat) (mask : Z) (n axis : nat) : string :=
  match n with
  | O => ""
  | S n' =>
      String (if Machine.bitnum_is_true mask (motor_bit axis motor)
              then axis_letter names axis else " "%char)
             (limit_letters names motor mask n' (S axis))
  end.

(** [limit_set] *)
Definition limit_set (mask : Z) : string :=
  (limit_letters "xyzabc" 0 mask MAX_N_AXIS 0
   ++ limit_letters "XYZABC" 1 mask MAX_N_AXIS 0)%string.

End Limits.

End Limits.

(** ** Listing of changed settings *)

Module Listing.

Section Listing.

Variable Ext : Type.
Variable ENABLE_AUTHENTICATION : bool.

Definition log_string (w : Dispatch.World Ext) (msg : string) : Dispatch.World Ext :=
  Dispatch.mkWorld Ext (Dispatch.settings Ext w) (Dispatch.dec Ext w)
                   (Dispatch.out Ext w ++ [msg]) (Dispatch.log Ext w) (Dispatch.ext Ext w).

(** The condition under which [list_changed_settings] shows [s]; the
    local [value] is the setting's current string, also in the call of
    [auth_failed]. *)
Definition changed_and_visible (auth_level : AuthenticationLevel) (s : Setting) : bool :=
  let value := c_str (getStringValue s) in
  negb (Auth.auth_failed ENABLE_AUTHENTICATION (getPermissions s) (Some value) auth_level)
  && negb (String.eqb value (c_str (getDefaultString s)))
  && negb (type_eqb (getType s) PIN).

(** The loop of [list_changed_settings]. *)
Fixpoint list_changed_loop (l : list Setting) (auth_level : AuthenticationLevel)
         (w : Dispatch.World Ext) : Dispatch.World Ext :=
  match l with
  | [] => w
  | s :: rest =>
      list_changed_loop rest auth_level
        (if changed_and_visible auth_level s
         then Dispatch.show_setting Ext (getName s) (getStringValue s) None w
         else w)
  end.

(** [list_changed_settings] *)
Definition list_changed_settings (value : option string) (auth_level : AuthenticationLevel)
           (w : Dispatch.World Ext) : Error * Dispatch.World Ext :=
  (Ok, log_string (list_changed_loop (Dispatch.settings Ext w) auth_level w)
                  "(Passwords not shown)").

End Listing.

End Listing.

(** ** Line entry point *)

Module Protocol.

Section Protocol.

Variable Ext : Type.
Variable ENABLE_AUTHENTICATION : bool.
Variable commands : list (Dispatch.Command Ext).
Variable protocol_buffer_synchronize : Dispatch.World Ext -> Dispatch.World Ext.
Variable runtime_setting :
  string -> string_view -> Dispatch.World Ext -> Dispatch.TreeOutcome * Dispatch.World Ext.
Variable validate : Dispatch.World Ext -> option string * Dispatch.World Ext.
Variable afterParse : Dispatch.World Ext -> option string * Dispatch.World Ext.
Variable setStringValue : Setting -> string -> Error * Setting.
Variable getCompatibleValue : Setting -> string.
Variable regexMatch : string -> string -> bool.

(** The interpreter and the controller state, which live in other files. *)
Variable sys_state : Dispatch.World Ext -> State.
Variable skip_blocks : Dispatch.World Ext -> bool.               (* gc_state.skip_blocks *)
Variable gc_execute_line : string -> Dispatch.World Ext -> Error * Dispatch.World Ext.
Variable job_active : Dispatch.World Ext -> bool.                (* Job::active() *)
Variable send_alarm : Unlock.ExecAlarm -> Dispatch.World Ext -> Dispatch.World Ext.

Definition log_error_to (w : Dispatch.World Ext) (msg : string) : Dispatch.World Ext :=
  Dispatch.mkWorld Ext (Dispatch.settings Ext w) (Dispatch.dec Ext w)
                   (Dispatch.out Ext w ++ [msg]) (Dispatch.log Ext w) (Dispatch.ext Ext w).

(** The part of [execute_line] after the test for '$' and '['. *)
Definition execute_gcode (line : string) (w : Dispatch.World Ext)
  : Error * Dispatch.World Ext :=
  if State_eqb (sys_state w) Alarm || State_eqb (sys_state w) ConfigAlarm
     || State_eqb (sys_state w) Jog
  then (SystemGcLock, w)
  else
    let '(result, w1) := gc_execute_line line w in
    if negb (Error_eqb result Ok) && negb (Error_eqb result ResetErr) then
      let w2 := log_error_to w1 ("Bad GCode: " ++ line)%string in
      (result, if job_active w2 then send_alarm Unlock.GCodeError w2 else w2)
    else (result, w1).

(** [execute_line] *)
Definition execute_line (line : string) (auth_level : AuthenticationLevel)
           (w : Dispatch.World Ext) : Error * Dispatch.World Ext :=
  match c_str line with
  | EmptyString => (Ok, w)
  | line0 =>
      let line1 := StringUtil.trim_left line0 in
      match line1 with
      | String c _ =>
          if Ascii.eqb c "$" || Ascii.eqb c "[" then
            if skip_blocks w then (Ok, w)
            else
              Dispatch.settings_execute_line Ext ENABLE_AUTHENTICATION commands
                protocol_buffer_synchronize runtime_setting validate afterParse
                setStringValue getCompatibleValue regexMatch line1 auth_level w
          else execute_gcode line1 w
      | EmptyString => execute_gcode line1 w
      end
  end.

End Protocol.

End Protocol.

(** ** Further configurations used to exercise the model *)

Module Examples.

(** A machine in the ConfigAlarm state whose control pins block unlocking. *)
Definition blocked_config_alarm : Machine.World :=
  Machine.mkWorld
    (Machine.mkMachine ConfigAlarm false true false 7%Z
       [Machine.mkAxis (Some (Machine.mkHoming true))] [])
    [].


(** Motor bits in the manner of the axis tables: motor 1 of an axis sits
    16 bits above motor 0. *)
Definition motor_bit (axis motor : nat) : Z := Z.of_nat (axis + 16 * motor).

Definition coord_world : Restore.World Z :=
  Restore.mkWorld Z
    [Fixtures.foo; Fixtures.web;
     mkSetting "Line0" None EXTENDED WG None "G0" "";
     mkSetting "Hostname" None WEBSET WA (Some "host") "cnc" "fluidnc"]
    [] [Restore.mkCoord Z 5%Z 0%Z; Restore.mkCoord Z 7%Z 1%Z] 1 9%Z 3%Z [].

Definition settings_restore (restore_flag : Z) (w : Restore.World Z) : Restore.World Z :=
  Restore.settings_restore Restore.declared_type_code
    Fixtures.bit_Defaults Fixtures.bit_Parameters Fixtures.bit_StartupLines Fixtures.bit_Wifi
    Z restore_flag w.

(** A secondary UART with passthrough enabled behind a disabled one. *)
Definition uart2 : Passthrough.Uart := Passthrough.mkUart "uart2" 115200%Z false "".

Definition relay_world : Passthrough.World :=
  Passthrough.mkWorld false "" [] [Some Fixtures.uart1; Some uart2]
    [Passthrough.mkChannel 1 false; Passthrough.mkChannel 2 false].

Definition relay_rounds : list Passthrough.Round :=
  [Passthrough.mkRound 0%Z "ab" 1%Z "" 0%Z;
   Passthrough.mkRound 2%Z "" 0%Z "ok" 3%Z;
   Passthrough.mkRound 5004%Z "" 0%Z "" 0%Z].

(** What the relay above leaves: "ab" sent to UART 2, "ok" to the caller. *)
Definition relay_result : Passthrough.World :=
  Passthrough.mkWorld false "ok" []
    [Some Fixtures.uart1; Some (Passthrough.mkUart "uart2" 115200%Z false "ab")]
    [Passthrough.mkChannel 1 false; Passthrough.mkChannel 2 false].

(** An interpreter that accepts the line "G0" and nothing else. *)
Definition gc_execute_line (line : string) (w : Dispatch.World State)
  : Error * Dispatch.World State :=
  if String.eqb line "G0" then (Ok, w) else (InvalidStatement, w).

Definition protocol_world (s : State) : Dispatch.World State :=
  Dispatch.mkWorld State [Fixtures.foo; Fixtures.web] (Codec.mkDec "" []) [] [] s.

Definition execute_line (line : string) (w : Dispatch.World State)
  : Error * Dispatch.World State :=
  Protocol.execute_line State true [] (fun w => w)
    (fun _ _ w => (Dispatch.NotHandled, w)) (fun w => (None, w)) (fun w => (None, w))
    Fixtures.setStringValue getStringValue String.prefix
    (Dispatch.ext State) (fun _ => false) gc_execute_line (fun _ => false) (fun _ w => w)
    line LEVEL_GUEST w.

(** A registry whose only command needs the Admin to write. *)
Definition restore_settings (value : option string) (auth_level : AuthenticationLevel)
           (w : Dispatch.World unit) : Error * Dispatch.World unit :=
  match value with
  | None => (InvalidStatement, w)
  | Some _ => (Ok, Dispatch.mkWorld unit [] (Dispatch.dec unit w) (Dispatch.out unit w)
                                    (Dispatch.log unit w) tt)
  end.

Definition admin_commands : list (Dispatch.Command unit) :=
  [Dispatch.mkCommand unit "Settings/Restore" (Some "RST") WA false restore_settings].

Definition do_command_or_setting (key : string) (value : string_view)
           (auth_level : AuthenticationLevel) (w : Dispatch.World unit)
  : Error * Dispatch.World unit :=
  Dispatch.do_command_or_setting unit true admin_commands (fun w => w)
    (fun _ _ w => (Dispatch.NotHandled, w)) (fun w => (None, w)) (fun w => (None, w))
    Fixtures.setStringValue getStringValue String.prefix key value auth_level w.

(** A registry in which every setting has its default value. *)
Definition default_world : Dispatch.World unit :=
  Dispatch.mkWorld unit [setDefault Fixtures.foo; setDefault Fixtures.web]
                   (Codec.mkDec "" []) [] [] tt.

End Examples.

(** ** Further vocabulary for the properties *)

Module MoreWords.

(** What identifies a setting, as opposed to its current value. *)
Definition identity (s : Setting)
  : string * option string * type_t * permissions_t * option string * string :=
  (getName s, getGrblName s, getType s, getPermissions s, getDescription s,
   getDefaultString s).

(** The settings a restore with flags [restore_flag] resets: the ones its
    Wifi pass or its Defaults pass selects. *)
Definition reset_by (type_code : type_t -> Z) (Defaults StartupLines Wifi restore_flag : Z)
           (s : Setting) : bool :=
  (Restore.flag_set restore_flag Wifi && Restore.wifi_condition type_code s)
  || (Restore.flag_set restore_flag Defaults
      && Restore.defaults_condition (Restore.flag_set restore_flag StartupLines) s).

(** A function on UARTs applied to an entry of [config->_uarts]. *)
Definition lift_uart (f : Passthrough.Uart -> Passthrough.Uart)
           (o : option Passthrough.Uart) : option Passthrough.Uart :=
  match o with
  | Some u => Some (f u)
  | None => None
  end.

(** What the relay neither reads nor changes in a UART. *)
Definition uart_mode (o : option Passthrough.Uart) : option (string * Z * bool) :=
  option_map (fun u => (Passthrough.name u, Passthrough.passthrough_baud u,
                        Passthrough.in_passthrough u)) o.

(** The line [show_setting] prints for a setting under its own name. *)
Definition setting_line (s : Setting) : string :=
  ("$" ++ getName s ++ "=" ++ Codec.uriEncodeGrblCharacters (getStringValue s))%string.

(** Two settings a Guest cannot tell apart: the same permission, and the
    same setting altogether when the permission is WG. *)
Definition guest_equivalent (s s' : Setting) : Prop :=
  getPermissions s = getPermissions s' /\ (getPermissions s = WG -> s = s').

(** A line whose first character after leading whitespace is '$' or '['. *)
Definition is_settings_line (line : string) : bool :=
  match StringUtil.trim_left (c_str line) with
  | String c _ => Ascii.eqb c "$" || Ascii.eqb c "["
  | EmptyString => false
  end.

End MoreWords.

(** * Properties *)

(** ** Authentication gate *)

(** C2.  With authentication compiled in, [auth_failed] is the negation of
    the truth table for every level, permission and value (a write is a
    non-empty value); compiled out, it never fails. *)
Theorem auth_failed_truth_table :
  forall (level : AuthenticationLevel) (permission : permissions_t) (value : string_view),
    Auth.auth_failed true permission value level
    = negb (Auth.gate_table level permission (negb (sv_empty value)))
    /\ Auth.auth_failed false permission value level = false.
Proof.
  intros level permission value; split; [| reflexivity].
  unfold Auth.auth_failed, Auth.gate_table.
  destruct level, permission; simpl; try reflexivity;
    destruct (sv_empty value); reflexivity.
Qed.

(** The rows of the table in words. *)
Lemma gate_table_rows :
  forall (permission : permissions_t) (is_write : bool),
    Auth.gate_table LEVEL_ADMIN permission is_write = true
    /\ (Auth.gate_table LEVEL_GUEST permission is_write = true <-> permission = WG)
    /\ Auth.gate_table LEVEL_USER permission false = true
    /\ (Auth.gate_table LEVEL_USER permission true = true <-> permission <> WA).
Proof.
  intros permission is_write.
  destruct permission, is_write; simpl; repeat split; intros; try reflexivity;
    try discriminate; try congruence.
Qed.

(** ** Percent codec *)

Section CodecFacts.

Import Codec.

Lemma append_assoc (a b c : string) : ((a ++ b) ++ c = a ++ (b ++ c))%string.
Proof. induction a as [| x a IH]; simpl; [reflexivity | now rewrite IH]. Qed.

Lemma append_empty_r (a : string) : (a ++ "" = a)%string.
Proof. induction a as [| x a IH]; simpl; [reflexivity | now rewrite IH]. Qed.

(** What one call adds to the buffer does not depend on what the buffer
    held: the call appends. *)
Lemma uriDecode_loop_appends (s : string) :
  forall st,
    decoded (uriDecode_loop s st)
    = (decoded st ++ decoded (uriDecode_loop s (mkDec "" [])))%string.
Proof.
  assert (G : forall n s, (String.length s <= n)%nat -> forall st,
               decoded (uriDecode_loop s st)
               = (decoded st ++ decoded (uriDecode_loop s (mkDec "" [])))%string).
  { induction n as [| n IH]; intros [| c s1] Hlen st; simpl in *;
      try (now rewrite append_empty_r); try lia.
    destruct (Ascii.eqb c "%").
    - destruct s1 as [| h [| l s3]]; simpl; try (now rewrite append_empty_r).
      destruct (from_hex h l) as [esc |]; simpl; [| now rewrite append_empty_r].
      rewrite (IH s3 ltac:(simpl in Hlen; lia) (push_char st esc)).
      rewrite (IH s3 ltac:(simpl in Hlen; lia) (push_char (mkDec "" []) esc)).
      simpl. now rewrite append_assoc.
    - rewrite (IH s1 ltac:(lia) (push_char st c)).
      rewrite (IH s1 ltac:(lia) (push_char (mkDec "" []) c)).
      simpl. now rewrite append_assoc. }
  intros st. now apply (G (String.length s)).
Qed.

Lemma from_hex_25 : from_hex "2" "5" = Some "%"%char.
Proof. reflexivity. Qed.

(** On an empty buffer, decoding an encoded C string gives it back. *)
Lemma uriDecode_uriEncode_fresh (s : string) :
  c_str s = s ->
  forall lg, fst (uriDecode (Some (uriEncodeGrblCharacters s)) (mkDec "" lg)) = s.
Proof.
  intros Hs lg. unfold uriDecode. simpl.
  rewrite uriDecode_loop_appends. simpl.
  clear lg. revert Hs.
  induction s as [| c s IH]; intros Hs; [reflexivity |].
  simpl in Hs |- *.
  destruct (Ascii.eqb c zero) eqn:Hz; [discriminate Hs |].
  injection Hs as Hs. specialize (IH Hs).
  destruct (Ascii.eqb c "%") eqn:E1;
    [apply Ascii.eqb_eq in E1; subst c; simpl;
     rewrite uriDecode_loop_appends; simpl; now rewrite IH |].
  destruct (Ascii.eqb c "!") eqn:E2;
    [apply Ascii.eqb_eq in E2; subst c; simpl;
     rewrite uriDecode_loop_appends; simpl; now rewrite IH |].
  destruct (Ascii.eqb c "?") eqn:E3;
    [apply Ascii.eqb_eq in E3; subst c; simpl;
     rewrite uriDecode_loop_appends; simpl; now rewrite IH |].
  destruct (Ascii.eqb c "~") eqn:E4;
    [apply Ascii.eqb_eq in E4; subst c; simpl;
     rewrite uriDecode_loop_appends; simpl; now rewrite IH |].
  simpl. rewrite E1.
  rewrite uriDecode_loop_appends; simpl; now rewrite IH.
Qed.

(** Decoding runs through an encoded prefix and arrives at what follows it
    with the prefix added to the buffer. *)
Lemma uriDecode_loop_encoded (p : string) :
  c_str p = p ->
  forall (rest : string) (st : DecState),
    uriDecode_loop (uriEncodeGrblCharacters p ++ rest) st
    = uriDecode_loop rest (mkDec (decoded st ++ p) (dec_log st)).
Proof.
  induction p as [| c p IH]; intros Hp rest st.
  - simpl. rewrite append_empty_r. now destruct st.
  - simpl in Hp |- *.
    destruct (Ascii.eqb c zero) eqn:Hz; [discriminate Hp |].
    injection Hp as Hp. specialize (IH Hp).
    assert (Hpush : forall x, mkDec (decoded (push_char st x) ++ p) (dec_log (push_char st x))
                              = mkDec (decoded st ++ String x p) (dec_log st)).
    { intros x. simpl. now rewrite append_assoc. }
    destruct (Ascii.eqb c "%") eqn:E1;
      [apply Ascii.eqb_eq in E1; subst c; simpl; now rewrite IH, Hpush |].
    destruct (Ascii.eqb c "!") eqn:E2;
      [apply Ascii.eqb_eq in E2; subst c; simpl; now rewrite IH, Hpush |].
    destruct (Ascii.eqb c "?") eqn:E3;
      [apply Ascii.eqb_eq in E3; subst c; simpl; now rewrite IH, Hpush |].
    destruct (Ascii.eqb c "~") eqn:E4;
      [apply Ascii.eqb_eq in E4; subst c; simpl; now rewrite IH, Hpush |].
    simpl. rewrite E1. now rewrite IH, Hpush.
Qed.

(** On an empty buffer, a truncated escape after an encoded prefix gives
    the prefix back and logs one error. *)
Lemma uriDecode_truncated_fresh (p t : string) :
  c_str p = p -> (String.length t < 2)%nat ->
  uriDecode (Some (uriEncodeGrblCharacters p ++ String "%" t)%string) (mkDec "" [])
  = (p, mkDec p ["Bad % encoding - too short"]).
Proof.
  intros Hp Ht. unfold uriDecode. simpl sv_str.
  rewrite (uriDecode_loop_encoded p Hp). simpl.
  destruct t as [| a [| b t]]; simpl in *; try reflexivity; lia.
Qed.

End CodecFacts.

(** C6.  The second of two calls of [uriDecode] returns the first call's
    output followed by its own: after decoding "a", encoding "b" and
    decoding the result gives "ab", not "b"; decoding the truncated escape
    "x%4" after that gives "abx", not "x".  Through the resolver: after
    the line "$Foo=a", the line "$Foo=b" sets the setting to "ab". *)
Theorem uriDecode_second_call_keeps_first_output :
  let st0 := Codec.mkDec "" [] in
  let r1 := Codec.uriDecode (Some "a") st0 in
  let r2 := Codec.uriDecode (Some (Codec.uriEncodeGrblCharacters "b")) (snd r1) in
  let r3 := Codec.uriDecode (Some "x%4") (snd r2) in
  let w1 := snd (Fixtures.settings_execute_line "$Foo=a" LEVEL_ADMIN Fixtures.dispatch_world) in
  let w2 := snd (Fixtures.settings_execute_line "$Foo=b" LEVEL_ADMIN w1) in
  fst r1 = "a" /\ fst r2 = "ab" /\ fst r2 <> "b"
  /\ fst r3 = "abx" /\ Codec.dec_log (snd r3) = ["Bad % encoding - too short"]
  /\ map getStringValue (Dispatch.settings unit w1) = ["a"; "home"]
  /\ map getStringValue (Dispatch.settings unit w2) = ["ab"; "home"].
Proof.
  simpl. repeat split; try reflexivity. discriminate.
Qed.

(** ** Check mode *)

Lemma State_eqb_eq (a b : State) : State_eqb a b = true <-> a = b.
Proof. destruct a, b; simpl; split; intro H; try reflexivity; discriminate H. Qed.

Lemma State_eqb_neq (a b : State) : State_eqb a b = false <-> a <> b.
Proof.
  split.
  - intros H E. apply State_eqb_eq in E. congruence.
  - intros H. destruct (State_eqb a b) eqn:E; [| reflexivity].
    apply State_eqb_eq in E. contradiction.
Qed.

(** C9.  In ConfigAlarm the check-mode toggle returns ConfigurationInvalid;
    in any state other than ConfigAlarm, CheckMode and Idle it returns
    IdleError; both leave the machine as it was. *)
Theorem toggle_check_mode_guards :
  forall (value : option string) (auth_level : AuthenticationLevel) (m : Machine.Machine),
    (Machine.sys_state m = ConfigAlarm ->
     Machine.toggle_check_mode value auth_level m = (ConfigurationInvalid, m))
    /\ (Machine.sys_state m <> ConfigAlarm ->
        Machine.sys_state m <> CheckMode ->
        Machine.sys_state m <> Idle ->
        Machine.toggle_check_mode value auth_level m = (IdleError, m)).
Proof.
  intros value auth_level m. unfold Machine.toggle_check_mode, Machine.state_is.
  split.
  - intros H. rewrite H. reflexivity.
  - intros H1 H2 H3.
    apply State_eqb_neq in H1, H2, H3. now rewrite H1, H2, H3.
Qed.

Lemma toggle_check_mode_guards_witness :
  Machine.toggle_check_mode None LEVEL_GUEST (Fixtures.machine_in ConfigAlarm)
  = (ConfigurationInvalid, Fixtures.machine_in ConfigAlarm)
  /\ Machine.toggle_check_mode None LEVEL_GUEST (Fixtures.machine_in Alarm)
     = (IdleError, Fixtures.machine_in Alarm).
Proof.
  split.
  - apply (proj1 (toggle_check_mode_guards None LEVEL_GUEST (Fixtures.machine_in ConfigAlarm))).
    reflexivity.
  - apply (proj2 (toggle_check_mode_guards None LEVEL_GUEST (Fixtures.machine_in Alarm)));
      simpl; intro H; discriminate H.
Defined.

(** ** Restore engine *)

Section RestoreFacts.

Variable type_code : type_t -> Z.
Variable CoordData : Type.

Lemma restore_pass_spec (cond : Setting -> bool) (l : list Setting) :
  Restore.restore_pass cond l
  = (map (fun s => if cond s then setDefault s else s) l,
     map getName (filter cond l)).
Proof.
  induction l as [| s l IH]; simpl; [reflexivity |].
  rewrite IH. destruct (cond s); reflexivity.
Qed.

Lemma wifi_condition_nonzero_codes :
  (forall t, type_code t <> 0%Z) ->
  forall s, Restore.wifi_condition type_code s = false.
Proof.
  intros Hnz s. unfold Restore.wifi_condition.
  destruct (Z.eqb_spec (type_code (getType s)) 0) as [E | _].
  - exfalso. exact (Hnz _ E).
  - cbn [Z.b2z]. apply Z.eqb_neq. intro E. exact (Hnz WEBSET (eq_sym E)).
Qed.

Lemma filter_false {A : Type} (f : A -> bool) (l : list A) :
  (forall x, f x = false) -> filter f l = [].
Proof.
  intros H. induction l as [| x l IH]; simpl; [reflexivity |].
  now rewrite H.
Qed.

Lemma map_if_false {A : Type} (f : A -> bool) (g : A -> A) (l : list A) :
  (forall x, f x = false) -> map (fun x => if f x then g x else x) l = l.
Proof.
  intros H. induction l as [| x l IH]; simpl; [reflexivity |].
  now rewrite H, IH.
Qed.

End RestoreFacts.

Lemma wifi_condition_webset_nonzero (type_code : type_t -> Z) (s : Setting) :
  type_code WEBSET <> 0%Z ->
  type_code (getType s) <> 0%Z ->
  Restore.wifi_condition type_code s = false.
Proof.
  intros HW Hs. unfold Restore.wifi_condition.
  destruct (Z.eqb_spec (type_code (getType s)) 0) as [E | _]; [contradiction |].
  cbn [Z.b2z]. apply Z.eqb_neq. intro E. apply HW. now symmetry.
Qed.

Lemma wifi_condition_webset_zero (type_code : type_t -> Z) (s : Setting) :
  type_code WEBSET = 0%Z ->
  Restore.wifi_condition type_code s = negb (type_code (getType s) =? 0)%Z.
Proof.
  intros HW. unfold Restore.wifi_condition. rewrite HW.
  destruct (type_code (getType s) =? 0)%Z; reflexivity.
Qed.

(** C8.  In every restore whose flags include Wifi, the Wifi category
    calls [setDefault] on exactly the settings that pass the source's test
    [!s->getType() == WEBSET], which compares the negated type value (1
    for the value 0, else 0) with the value of [WEBSET]; any further call
    comes from the Defaults category, run afterwards on the result.  The
    test is the comparison [type != WEBSET] only when [WEBSET] has the
    value 0.  Whatever values the enumerators of [type_t] have, when
    [WEBSET] is not 0 the Wifi category resets no setting whose type value
    is not 0, and when moreover the values are distinct there is a type
    other than [WEBSET] none of whose settings it resets; when no
    enumerator is 0 it resets no setting at all. *)
Theorem settings_restore_wifi_pass :
  forall (type_code : type_t -> Z) (Defaults Parameters StartupLines Wifi : Z)
         (CoordData : Type) (restore_flag : Z) (w : Restore.World CoordData),
    Restore.flag_set restore_flag Wifi = true ->
    let w' := Restore.settings_restore type_code Defaults Parameters StartupLines Wifi
                                       CoordData restore_flag w in
    let by_wifi := filter (Restore.wifi_condition type_code) (Restore.settings CoordData w) in
    let after_wifi :=
      map (fun s => if Restore.wifi_condition type_code s then setDefault s else s)
          (Restore.settings CoordData w) in
    let dflt := Restore.defaults_condition (Restore.flag_set restore_flag StartupLines) in
    Restore.setDefault_calls CoordData w'
    = Restore.setDefault_calls CoordData w ++ map getName by_wifi
        ++ (if Restore.flag_set restore_flag Defaults
            then map getName (filter dflt after_wifi) else [])
    /\ Restore.settings CoordData w'
       = (if Restore.flag_set restore_flag Defaults
          then map (fun s => if dflt s then setDefault s else s) after_wifi
          else after_wifi)
    /\ ((forall t, type_code t <> 0%Z) ->
        by_wifi = [] /\ after_wifi = Restore.settings CoordData w)
    /\ (type_code WEBSET <> 0%Z ->
        forall s, type_code (getType s) <> 0%Z -> ~ In s by_wifi)
    /\ (type_code WEBSET <> 0%Z ->
        (forall t1 t2, type_code t1 = type_code t2 -> t1 = t2) ->
        exists t, t <> WEBSET /\ forall s, getType s = t -> ~ In s by_wifi)
    /\ (type_code WEBSET = 0%Z ->
        (forall t1 t2, type_code t1 = type_code t2 -> t1 = t2) ->
        forall s, In s by_wifi
                  <-> In s (Restore.settings CoordData w) /\ getType s <> WEBSET).
Proof.
  intros type_code Defaults Parameters StartupLines Wifi CoordData restore_flag w HW
         w' by_wifi after_wifi dflt.
  split; [| split; [| split; [| split; [| split]]]].
  - subst w' by_wifi after_wifi dflt. unfold Restore.settings_restore.
    rewrite HW. cbv zeta. rewrite restore_pass_spec.
    destruct (Restore.flag_set restore_flag Defaults);
      cbn [Restore.settings Restore.setDefault_calls];
      rewrite ?restore_pass_spec;
      destruct (Restore.flag_set restore_flag Parameters); simpl;
      rewrite ?app_nil_r; try reflexivity; symmetry; apply app_assoc.
  - subst w' by_wifi after_wifi dflt. unfold Restore.settings_restore.
    rewrite HW. cbv zeta. rewrite restore_pass_spec.
    destruct (Restore.flag_set restore_flag Defaults);
      cbn [Restore.settings Restore.setDefault_calls];
      rewrite ?restore_pass_spec;
      destruct (Restore.flag_set restore_flag Parameters); reflexivity.
  - intros Hnz. split.
    + apply filter_false. now apply wifi_condition_nonzero_codes.
    + apply map_if_false. now apply wifi_condition_nonzero_codes.
  - intros Hweb s Hs Hin. subst by_wifi. apply filter_In in Hin as [_ Hc].
    rewrite (wifi_condition_webset_nonzero type_code s Hweb Hs) in Hc. discriminate Hc.
  - intros Hweb Hinj.
    destruct (Z.eq_dec (type_code GRBL) 0) as [Eg | Eg].
    + exists EXTENDED. split; [discriminate |].
      intros s Ht Hin. subst by_wifi. apply filter_In in Hin as [_ Hc].
      rewrite (wifi_condition_webset_nonzero type_code s Hweb) in Hc;
        [discriminate Hc |].
      rewrite Ht. intro Ee.
      assert (Habs : EXTENDED = GRBL) by (apply Hinj; now rewrite Ee, Eg).
      discriminate Habs.
    + exists GRBL. split; [discriminate |].
      intros s Ht Hin. subst by_wifi. apply filter_In in Hin as [_ Hc].
      rewrite (wifi_condition_webset_nonzero type_code s Hweb) in Hc;
        [discriminate Hc |].
      now rewrite Ht.
  - intros Hweb Hinj s. subst by_wifi. rewrite filter_In.
    rewrite (wifi_condition_webset_zero type_code s Hweb), negb_true_iff, Z.eqb_neq.
    split; intros [Hin Hc]; (split; [exact Hin |]).
    + intro Ht. apply Hc. now rewrite Ht.
    + intro Ez. apply Hc. apply Hinj. now rewrite Ez, Hweb.
Qed.

Lemma settings_restore_wifi_pass_witness :
  Restore.setDefault_calls unit (Fixtures.restore_wifi Fixtures.restore_world) = []
  /\ Restore.settings unit (Fixtures.restore_wifi Fixtures.restore_world)
     = [Fixtures.foo; Fixtures.web]
  /\ getType Fixtures.foo <> WEBSET
  /\ ~ In Fixtures.foo
          (filter (Restore.wifi_condition Restore.declared_type_code)
                  (Restore.settings unit Fixtures.restore_world)).
Proof.
  destruct (settings_restore_wifi_pass Restore.declared_type_code
              Fixtures.bit_Defaults Fixtures.bit_Parameters Fixtures.bit_StartupLines
              Fixtures.bit_Wifi unit Fixtures.bit_Wifi Fixtures.restore_world
              eq_refl) as [Hc [Hs [Hn [Hz _]]]].
  destruct Hn as [Hw Ha]; [intros t; destruct t; simpl; lia |].
  split; [| split; [| split]].
  - etransitivity; [exact Hc |]. rewrite Hw. reflexivity.
  - etransitivity; [exact Hs |]. simpl in Ha |- *. exact Ha.
  - simpl. discriminate.
  - apply Hz; simpl; lia.
Defined.

(** ** Homing *)

Lemma failing_interlocks_In (AllCycles axisMask : Machine.AxisMask) (m : Machine.Machine) (e : Error) :
  In e (SpecWords.failing_interlocks AllCycles axisMask m)
  <-> (Machine.pins_block_unlock m = true /\ e = CheckControlPins)
      \/ (negb (axisMask =? AllCycles)%Z
           && existsb (fun '(i, a) => Machine.bitnum_is_true axisMask (Z.of_nat i)
                                      && negb (Machine.homing_allowed a))
                      (combine (seq 0 (List.length (Machine.axes m))) (Machine.axes m)) = true
          /\ e = SingleAxisHoming)
      \/ (State_eqb (Machine.sys_state m) ConfigAlarm = true /\ e = ConfigurationInvalid)
      \/ ((Machine.homingMask m =? 0)%Z = true /\ e = SettingDisabled)
      \/ (Machine.safety_door_ajar m = true /\ e = CheckDoor).
Proof.
  unfold SpecWords.failing_interlocks.
  destruct (Machine.pins_block_unlock m);
    destruct (negb (axisMask =? AllCycles)%Z && _);
    destruct (State_eqb (Machine.sys_state m) ConfigAlarm);
    destruct (Machine.homingMask m =? 0)%Z;
    destruct (Machine.safety_door_ajar m); simpl;
    intuition (try discriminate; try congruence).
Qed.

Section HomeFacts.

Import Machine SpecWords.

Variable AllCycles : AxisMask.
Variable run_cycles : AxisMask -> Machine -> Machine.
Variable protocol_execute_realtime : Machine -> Machine.

Local Abbreviation home := (Machine.home AllCycles run_cycles protocol_execute_realtime).
Local Abbreviation wait_homing := (Machine.wait_homing protocol_execute_realtime).

Lemma single_axis_prohibited_existsb (axisMask : AxisMask) (l : list Axis) :
  forall k : nat,
    single_axis_prohibited axisMask l (Z.of_nat k)
    = existsb (fun '(i, a) => bitnum_is_true axisMask (Z.of_nat i) && negb (homing_allowed a))
              (combine (seq k (List.length l)) l).
Proof.
  induction l as [| a l IH]; intros k; [reflexivity |].
  cbn [single_axis_prohibited List.length seq combine existsb].
  replace (Z.of_nat k + 1)%Z with (Z.of_nat (S k)) by lia.
  rewrite <- IH.
  destruct (bitnum_is_true axisMask (Z.of_nat k)), (homing_allowed a); reflexivity.
Qed.

Lemma existsb_indexed {A : Type} (f : nat * A -> bool) (l : list A) :
  forall k : nat,
    existsb f (combine (seq k (List.length l)) l) = true
    <-> exists i a, nth_error l i = Some a /\ f ((k + i)%nat, a) = true.
Proof.
  induction l as [| x l IH]; intros k.
  - simpl. split; [discriminate |]. intros [[| i] [a [H _]]]; discriminate H.
  - cbn [List.length seq combine existsb]. rewrite orb_true_iff, IH. split.
    + intros [H | [i [a [Hn Hf]]]].
      * exists 0%nat, x. rewrite Nat.add_0_r. now split.
      * exists (S i), a. split; [exact Hn |].
        now replace (k + S i)%nat with (S k + i)%nat by lia.
    + intros [[| i] [a [Hn Hf]]].
      * left. injection Hn as ->. now rewrite Nat.add_0_r in Hf.
      * right. exists i, a. split; [exact Hn |].
        now replace (S k + i)%nat with (k + S i)%nat by lia.
Qed.

(** The decision list of [home], read off its code. *)
Lemma home_decides (fuel : nat) (axisMask : AxisMask) (w : World) :
  home fuel axisMask w
  = match failing_interlocks AllCycles axisMask (machine w) with
    | e :: _ => Some (e, w)
    | [] =>
        match wait_homing fuel (run_cycles axisMask (machine w)) with
        | Some m' => Some (Ok, mkWorld m' (trace w ++ [RunCycles axisMask; CycleDone axisMask]))
        | None => None
        end
    end.
Proof.
  unfold Machine.home, failing_interlocks, state_is.
  rewrite (single_axis_prohibited_existsb axisMask (axes (machine w)) 0
           : single_axis_prohibited axisMask (axes (machine w)) 0 = _).
  destruct (pins_block_unlock (machine w)); [reflexivity |].
  destruct (negb (axisMask =? AllCycles)%Z && _); [reflexivity |].
  destruct (State_eqb (sys_state (machine w)) ConfigAlarm); [reflexivity |].
  destruct (homingMask (machine w) =? 0)%Z; [reflexivity |].
  destruct (safety_door_ajar (machine w)); reflexivity.
Qed.

Lemma home_error_keeps_world (fuel : nat) (axisMask : AxisMask) (w w' : World) (e : Error) :
  home fuel axisMask w = Some (e, w') -> e <> Ok -> w' = w.
Proof.
  rewrite home_decides. unfold failing_interlocks.
  destruct (pins_block_unlock (machine w)); [intros H; now injection H |].
  destruct (negb (axisMask =? AllCycles)%Z && _); [intros H; now injection H |].
  destruct (State_eqb (sys_state (machine w)) ConfigAlarm); [intros H; now injection H |].
  destruct (homingMask (machine w) =? 0)%Z; [intros H; now injection H |].
  destruct (safety_door_ajar (machine w)); [intros H; now injection H |].
  simpl. destruct (wait_homing _ _); [| discriminate].
  intros H Hne. injection H as <- _. now contradiction Hne.
Qed.

Lemma home_ok_trace (fuel : nat) (axisMask : AxisMask) (w w' : World) :
  home fuel axisMask w = Some (Ok, w') ->
  trace w' = trace w ++ [RunCycles axisMask; CycleDone axisMask]
  /\ failing_interlocks AllCycles axisMask (machine w) = [].
Proof.
  rewrite home_decides.
  destruct (failing_interlocks AllCycles axisMask (machine w)) as [| e fs] eqn:Hf.
  - destruct (wait_homing _ _); [| discriminate].
    intros H. injection H as <-. now split.
  - intros H. injection H as -> _.
    exfalso. revert Hf. unfold failing_interlocks.
    destruct (pins_block_unlock (machine w)); [discriminate |].
    destruct (negb (axisMask =? AllCycles)%Z && _); [discriminate |].
    destruct (State_eqb (sys_state (machine w)) ConfigAlarm); [discriminate |].
    destruct (homingMask (machine w) =? 0)%Z; [discriminate |].
    destruct (safety_door_ajar (machine w)); discriminate.
Qed.

End HomeFacts.

(** C5, with the order of the tests.  [home] tests its interlocks in this
    order and returns at the first that fails, whatever the bound on the
    wait loop, with the world, trace of motion requests included, as it
    was given: control pins that block unlocking (CheckControlPins); a
    request other than all-cycles with a requested axis that does not
    allow single-axis homing (SingleAxisHoming); the ConfigAlarm state
    (ConfigurationInvalid); an empty homing mask (SettingDisabled); an
    ajar safety door (CheckDoor).  A motion request is made only when none
    of the five fails. *)
Theorem home_interlocks_before_motion :
  forall (AllCycles : Machine.AxisMask)
         (run_cycles : Machine.AxisMask -> Machine.Machine -> Machine.Machine)
         (protocol_execute_realtime : Machine.Machine -> Machine.Machine)
         (fuel : nat) (axisMask : Machine.AxisMask) (w : Machine.World),
    let m := Machine.machine w in
    let single_axis_prohibited :=
      axisMask <> AllCycles
      /\ exists i a, nth_error (Machine.axes m) i = Some a
                     /\ Z.testbit axisMask (Z.of_nat i) = true
                     /\ Machine.homing_allowed a = false in
    let result :=
      Machine.home AllCycles run_cycles protocol_execute_realtime fuel axisMask w in
    (Machine.pins_block_unlock m = true -> result = Some (CheckControlPins, w))
    /\ (Machine.pins_block_unlock m = false ->
        single_axis_prohibited ->
        result = Some (SingleAxisHoming, w))
    /\ (Machine.pins_block_unlock m = false ->
        ~ single_axis_prohibited ->
        Machine.sys_state m = ConfigAlarm ->
        result = Some (ConfigurationInvalid, w))
    /\ (Machine.pins_block_unlock m = false ->
        ~ single_axis_prohibited ->
        Machine.sys_state m <> ConfigAlarm ->
        Machine.homingMask m = 0%Z ->
        result = Some (SettingDisabled, w))
    /\ (Machine.pins_block_unlock m = false ->
        ~ single_axis_prohibited ->
        Machine.sys_state m <> ConfigAlarm ->
        Machine.homingMask m <> 0%Z ->
        Machine.safety_door_ajar m = true ->
        result = Some (CheckDoor, w))
    /\ (forall r w',
        result = Some (r, w') ->
        SpecWords.requests (Machine.trace w') <> SpecWords.requests (Machine.trace w) ->
        Machine.pins_block_unlock m = false
        /\ ~ single_axis_prohibited
        /\ Machine.sys_state m <> ConfigAlarm
        /\ Machine.homingMask m <> 0%Z
        /\ Machine.safety_door_ajar m = false).
Proof.
  intros AllCycles run_cycles per fuel axisMask w m single result.
  assert (Hsingle :
            (negb (axisMask =? AllCycles)%Z
             && existsb (fun '(i, a) => Machine.bitnum_is_true axisMask (Z.of_nat i)
                                        && negb (Machine.homing_allowed a))
                        (combine (seq 0 (List.length (Machine.axes m))) (Machine.axes m))
             = true)
            <-> single).
  { subst single.
    rewrite andb_true_iff, negb_true_iff, Z.eqb_neq, existsb_indexed.
    split; intros [Hne [i [a [Hn Hf]]]]; (split; [exact Hne |]); exists i, a;
      (split; [exact Hn |]).
    - simpl in Hf. apply andb_true_iff in Hf as [Hb Ha].
      apply negb_true_iff in Ha. now split.
    - destruct Hf as [Hb Ha]. simpl. unfold Machine.bitnum_is_true.
      now rewrite Hb, Ha. }
  assert (Hnot : ~ single ->
                 negb (axisMask =? AllCycles)%Z
                 && existsb (fun '(i, a) => Machine.bitnum_is_true axisMask (Z.of_nat i)
                                            && negb (Machine.homing_allowed a))
                            (combine (seq 0 (List.length (Machine.axes m))) (Machine.axes m))
                 = false).
  { intros Hn. destruct (negb (axisMask =? AllCycles)%Z && _) eqn:E; [| reflexivity].
    exfalso. apply Hn, Hsingle. reflexivity. }
  subst result. rewrite home_decides. unfold SpecWords.failing_interlocks. fold m.
  split; [| split; [| split; [| split; [| split]]]].
  - intros Hp. now rewrite Hp.
  - intros Hp Hs. apply Hsingle in Hs. now rewrite Hp, Hs.
  - intros Hp Hs Hc. rewrite Hp, (Hnot Hs), Hc. reflexivity.
  - intros Hp Hs Hc Hm. apply State_eqb_neq in Hc. rewrite Hp, (Hnot Hs), Hc, Hm.
    reflexivity.
  - intros Hp Hs Hc Hm Hd. apply State_eqb_neq in Hc. apply Z.eqb_neq in Hm.
    rewrite Hp, (Hnot Hs), Hc, Hm, Hd. reflexivity.
  - intros r w'.
    destruct (Machine.pins_block_unlock m);
      [intros H Htr; injection H as _ <-; now contradiction Htr |].
    destruct (negb (axisMask =? AllCycles)%Z && _) eqn:Es;
      [intros H Htr; injection H as _ <-; now contradiction Htr |].
    destruct (State_eqb (Machine.sys_state m) ConfigAlarm) eqn:Ec;
      [intros H Htr; injection H as _ <-; now contradiction Htr |].
    destruct (Z.eqb_spec (Machine.homingMask m) 0) as [Em | Em];
      [intros H Htr; injection H as _ <-; now contradiction Htr |].
    destruct (Machine.safety_door_ajar m);
      [intros H Htr; injection H as _ <-; now contradiction Htr |].
    intros _ _. repeat split; try assumption.
    + intros Hs. apply Hsingle in Hs. discriminate Hs.
    + now apply State_eqb_neq.
Qed.

Lemma home_interlocks_before_motion_witness :
  Machine.home Fixtures.all_cycles Fixtures.run_cycles Fixtures.protocol_execute_realtime
               1 5%Z (Fixtures.world_in ConfigAlarm)
  = Some (ConfigurationInvalid, Fixtures.world_in ConfigAlarm).
Proof.
  destruct (home_interlocks_before_motion
              Fixtures.all_cycles Fixtures.run_cycles Fixtures.protocol_execute_realtime
              1 5%Z (Fixtures.world_in ConfigAlarm)) as [_ [_ [H _]]].
  apply H.
  - reflexivity.
  - intros [_ [i [a [Hn [_ Ha]]]]].
    destruct i as [| [| [| i]]]; simpl in Hn;
      try (injection Hn as <-; discriminate Ha);
      destruct i; discriminate Hn.
  - reflexivity.
Defined.

(** C5, as the claim has it, fails: in the ConfigAlarm state with control
    pins that block unlocking, [home] returns CheckControlPins, not
    ConfigurationInvalid. *)
Lemma home_config_alarm_counterexample :
  Machine.sys_state (Machine.machine Examples.blocked_config_alarm) = ConfigAlarm
  /\ Machine.home Fixtures.all_cycles Fixtures.run_cycles Fixtures.protocol_execute_realtime
                  1 0%Z Examples.blocked_config_alarm
     = Some (CheckControlPins, Examples.blocked_config_alarm)
  /\ Machine.home Fixtures.all_cycles Fixtures.run_cycles Fixtures.protocol_execute_realtime
                  1 0%Z Examples.blocked_config_alarm
     <> Some (ConfigurationInvalid, Examples.blocked_config_alarm).
Proof.
  repeat split. discriminate.
Qed.

Section HomeAllFacts.

Import Machine SpecWords.

Variable AllCycles : AxisMask.
Variable run_cycles : AxisMask -> Machine -> Machine.
Variable protocol_execute_realtime : Machine -> Machine.
Variable axis_mask_from_cycle : Machine -> Z -> AxisMask.
Variable namesToMask : Machine -> string -> AxisMask -> bool * AxisMask.

Local Abbreviation home := (Machine.home AllCycles run_cycles protocol_execute_realtime).
Local Abbreviation home_cycles :=
  (Machine.home_cycles AllCycles run_cycles protocol_execute_realtime axis_mask_from_cycle).
Local Abbreviation home_all :=
  (Machine.home_all AllCycles run_cycles protocol_execute_realtime
                    axis_mask_from_cycle namesToMask).
Local Abbreviation count_cycle_digits := (Machine.count_cycle_digits axis_mask_from_cycle).

(** A digit that names a cycle with axes, in machine [m]. *)
Local Abbreviation valid_cycle m :=
  (fun c : ascii => isdigit c && negb (axis_mask_from_cycle m (digit_value c) =? 0)%Z).

(** A digit that names a cycle without axes. *)
Local Abbreviation empty_cycle m :=
  (fun c : ascii => isdigit c && (axis_mask_from_cycle m (digit_value c) =? 0)%Z).

Lemma count_cycle_digits_valid (m : Machine) (v : string) :
  string_forallb (valid_cycle m) v = true ->
  forall n, count_cycle_digits m v n = inr (n + String.length v)%nat.
Proof.
  induction v as [| c v IH]; intros Hv n; simpl.
  - now rewrite Nat.add_0_r.
  - simpl in Hv. apply andb_true_iff in Hv as [Hc Hv].
    apply andb_true_iff in Hc as [Hd Hm]. apply negb_true_iff in Hm.
    rewrite Hd, Hm, (IH Hv). f_equal. lia.
Qed.



Lemma string_length_app (a b : string) :
  String.length (a ++ b) = (String.length a + String.length b)%nat.
Proof. induction a as [| c a IH]; simpl; [reflexivity | now rewrite IH]. Qed.

(** A list of valid cycle digits is run by the second loop. *)
Lemma home_all_digits (fuel : nat) (auth_level : AuthenticationLevel) (v : string) (w : World) :
  c_str v = v -> v <> ""%string ->
  string_forallb (valid_cycle (machine w)) v = true ->
  home_all fuel (Some v) auth_level w = home_cycles fuel v Ok w.
Proof.
  intros Hc Hne Hv. unfold Machine.home_all. rewrite Hc.
  rewrite (count_cycle_digits_valid _ _ Hv). simpl.
  destruct v as [| c v]; [contradiction Hne; reflexivity |].
  simpl. now rewrite Nat.eqb_refl.
Qed.

End HomeAllFacts.

(** ** UART passthrough *)

Section PassthroughFacts.

Import Passthrough.

Lemma find_auto_none (l : list (option Uart)) :
  (forall u, In (Some u) l -> passthrough_baud u = 0%Z) ->
  forall n, find_auto l n = (n + List.length l)%nat.
Proof.
  induction l as [| [u |] l IH]; intros H n; simpl.
  - now rewrite Nat.add_0_r.
  - rewrite (H u (or_introl eq_refl)). simpl.
    rewrite IH; [lia |]. intros u' Hu'. apply H. now right.
  - rewrite IH; [lia |]. intros u' Hu'. apply H. now right.
Qed.

Lemma find_named_none (uart_name : string) (l : list (option Uart)) :
  (forall u, In (Some u) l -> name u <> uart_name) ->
  forall n, find_named uart_name l n = inr (n + List.length l)%nat.
Proof.
  induction l as [| [u |] l IH]; intros H n; simpl.
  - now rewrite Nat.add_0_r.
  - destruct (String.eqb_spec (name u) uart_name) as [E | _].
    + exfalso. exact (H u (or_introl eq_refl) E).
    + rewrite IH; [f_equal; lia |]. intros u' Hu'. apply H. now right.
  - rewrite IH; [f_equal; lia |]. intros u' Hu'. apply H. now right.
Qed.

Lemma find_named_disabled (uart_name : string) (before after : list (option Uart)) (u : Uart) :
  (forall u', In (Some u') before -> name u' <> uart_name) ->
  name u = uart_name -> passthrough_baud u = 0%Z ->
  forall n, exists msg, find_named uart_name (before ++ Some u :: after) n = inl msg.
Proof.
  intros Hb Hn Hz.
  induction before as [| [u' |] before IH]; intros n; simpl.
  - rewrite Hn, String.eqb_refl, Hz. simpl. eexists. reflexivity.
  - destruct (String.eqb_spec (name u') uart_name) as [E | _].
    + exfalso. exact (Hb u' (or_introl eq_refl) E).
    + apply IH. intros u'' Hu''. apply Hb. now right.
  - apply IH. intros u'' Hu''. apply Hb. now right.
Qed.

End PassthroughFacts.

(** C7.  When the value selects "auto" and no secondary UART has a
    non-zero passthrough baud rate, or selects a name that no secondary
    UART bears, or a name whose first bearer has the baud rate 0, the
    command returns InvalidValue, whatever the relay would do afterwards,
    and the world it leaves differs from the one it was given by one
    logged message only: the pause state of the calling channel, the UART
    channels and the UARTs, passthrough mode included, are the same. *)
Theorem uartPassthrough_no_target :
  forall (rounds : list Passthrough.Round) (start_ticks : Z) (value : option string)
         (auth_level : AuthenticationLevel) (w : Passthrough.World)
         (timeout : Z) (uart_name : string),
    Passthrough.parse_value value = Some (timeout, uart_name) ->
    (uart_name = "auto"%string
     /\ forall u, In (Some u) (Passthrough.secondary_uarts w) ->
                  Passthrough.passthrough_baud u = 0%Z)
    \/ (uart_name <> "auto"%string
        /\ forall u, In (Some u) (Passthrough.secondary_uarts w) ->
                     Passthrough.name u <> uart_name)
    \/ (uart_name <> "auto"%string
        /\ exists before u after,
            Passthrough.secondary_uarts w = before ++ Some u :: after
            /\ (forall u', In (Some u') before -> Passthrough.name u' <> uart_name)
            /\ Passthrough.name u = uart_name
            /\ Passthrough.passthrough_baud u = 0%Z) ->
    exists w',
      Passthrough.uartPassthrough rounds start_ticks value auth_level w
      = Some (InvalidValue, w')
      /\ Passthrough.out_paused w' = Passthrough.out_paused w
      /\ Passthrough.uart_channels w' = Passthrough.uart_channels w
      /\ Passthrough.secondary_uarts w' = Passthrough.secondary_uarts w
      /\ Passthrough.out_written w' = Passthrough.out_written w.
Proof.
  intros rounds start_ticks value auth_level w timeout uart_name Hparse Hcase.
  unfold Passthrough.uartPassthrough. rewrite Hparse.
  destruct Hcase as [[Hauto Hnone] | [[Hname Hnone] | [Hname Hdis]]].
  - subst uart_name. simpl.
    rewrite (find_auto_none _ Hnone 1). unfold Passthrough.MAX_N_UARTS.
    simpl. rewrite Nat.eqb_refl.
    eexists. split; [reflexivity |]. repeat split.
  - apply String.eqb_neq in Hname. rewrite Hname.
    rewrite (find_named_none _ _ Hnone 1). unfold Passthrough.MAX_N_UARTS.
    simpl. rewrite Nat.eqb_refl.
    eexists. split; [reflexivity |]. repeat split.
  - apply String.eqb_neq in Hname. rewrite Hname.
    destruct Hdis as [before [u [after [Hl [Hb [Hn Hz]]]]]].
    destruct (find_named_disabled uart_name before after u Hb Hn Hz 1) as [msg Hmsg].
    rewrite Hl, Hmsg.
    eexists. split; [reflexivity |]. repeat split. exact Hl.
Qed.

Lemma uartPassthrough_no_target_witness :
  exists w',
    Passthrough.uartPassthrough [] 0%Z (Some "auto,5s") LEVEL_ADMIN Fixtures.passthrough_world
    = Some (InvalidValue, w')
    /\ Passthrough.out_paused w' = false
    /\ Passthrough.uart_channels w' = [Passthrough.mkChannel 1 false]
    /\ Passthrough.secondary_uarts w' = [Some Fixtures.uart1; None]
    /\ Passthrough.out_written w' = ""%string.
Proof.
  apply (uartPassthrough_no_target [] 0%Z (Some "auto,5s") LEVEL_ADMIN
           Fixtures.passthrough_world 5000%Z "auto").
  - reflexivity.
  - left. split; [reflexivity |].
    simpl. intros u [H | [H | H]]; [injection H as <-; reflexivity | discriminate H | contradiction H].
Defined.

(** ** The resolver *)

Section DispatchFacts.

Import Dispatch StringUtil.

Variable Ext : Type.
Variable ENABLE_AUTHENTICATION : bool.
Variable commands : list (Command Ext).
Variable protocol_buffer_synchronize : World Ext -> World Ext.
Variable runtime_setting : string -> string_view -> World Ext -> TreeOutcome * World Ext.
Variable validate : World Ext -> option string * World Ext.
Variable afterParse : World Ext -> option string * World Ext.
Variable setStringValue : Setting -> string -> Error * Setting.
Variable getCompatibleValue : Setting -> string.

Local Abbreviation command_loop :=
  (Dispatch.command_loop Ext ENABLE_AUTHENTICATION protocol_buffer_synchronize).
Local Abbreviation run_command :=
  (Dispatch.run_command Ext ENABLE_AUTHENTICATION protocol_buffer_synchronize).
Local Abbreviation name_loop := (Dispatch.name_loop Ext setStringValue).
Local Abbreviation grbl_name_loop := (Dispatch.grbl_name_loop Ext setStringValue getCompatibleValue).
Local Abbreviation access_setting := (Dispatch.access_setting Ext setStringValue).
Local Abbreviation name_matches key := (fun s : Setting => equal_ignore_case (getName s) key).

(** The command loop runs the first command that matches. *)
Lemma command_loop_first (key : string) (value : string_view)
      (auth_level : AuthenticationLevel) (w : World Ext)
      (before : list (Command Ext)) (cp : Command Ext) (after : list (Command Ext)) :
  forallb (fun c => negb (command_matches Ext key c)) before = true ->
  command_matches Ext key cp = true ->
  command_loop (before ++ cp :: after) key value auth_level w
  = Some (run_command cp value auth_level w).
Proof.
  intros Hb Hc. induction before as [| c before IH]; simpl.
  - now rewrite Hc.
  - simpl in Hb. apply andb_true_iff in Hb as [Hn Hb].
    apply negb_true_iff in Hn. rewrite Hn. now apply IH.
Qed.

Lemma command_loop_none (key : string) (value : string_view)
      (auth_level : AuthenticationLevel) (w : World Ext) (l : list (Command Ext)) :
  forallb (fun c => negb (command_matches Ext key c)) l = true ->
  command_loop l key value auth_level w = None.
Proof.
  induction l as [| c l IH]; intros Hl; simpl; [reflexivity |].
  simpl in Hl. apply andb_true_iff in Hl as [Hn Hl].
  apply negb_true_iff in Hn. rewrite Hn. now apply IH.
Qed.

(** The loop by text name reads or writes the first setting whose name
    matches, and puts what it wrote back in its place. *)
Lemma name_loop_first (key : string) (value : string_view) (w : World Ext)
      (before : list Setting) (s : Setting) (after : list Setting) :
  forallb (fun x => negb (name_matches key x)) before = true ->
  name_matches key s = true ->
  name_loop (before ++ s :: after) key value w
  = let '(err, s', w') := access_setting (getName s) (getStringValue s) s value w in
    Some (err, before ++ s' :: after, w').
Proof.
  intros Hb Hs. induction before as [| x before IH]; simpl.
  - rewrite Hs. reflexivity.
  - simpl in Hb. apply andb_true_iff in Hb as [Hn Hb].
    apply negb_true_iff in Hn. rewrite Hn, (IH Hb).
    destruct (access_setting (getName s) (getStringValue s) s value w) as [[err s'] w'].
    reflexivity.
Qed.

Lemma name_loop_none (key : string) (value : string_view) (w : World Ext) (l : list Setting) :
  forallb (fun x => negb (name_matches key x)) l = true ->
  name_loop l key value w = None.
Proof.
  induction l as [| x l IH]; intros Hl; simpl; [reflexivity |].
  simpl in Hl. apply andb_true_iff in Hl as [Hn Hl].
  apply negb_true_iff in Hn. now rewrite Hn, (IH Hl).
Qed.

(** The loop by compatible name does the same with the first setting whose
    compatible name matches, displaying under that name. *)
Lemma grbl_name_loop_first (key : string) (value : string_view) (w : World Ext)
      (before : list Setting) (s : Setting) (g : string) (after : list Setting) :
  forallb (fun x => negb (grbl_name_matches key x)) before = true ->
  getGrblName s = Some g -> equal_ignore_case g key = true ->
  grbl_name_loop (before ++ s :: after) key value w
  = let '(err, s', w') := access_setting g (getCompatibleValue s) s value w in
    Some (err, before ++ s' :: after, w').
Proof.
  intros Hb Hg Hs. induction before as [| x before IH]; simpl.
  - rewrite Hg, Hs. reflexivity.
  - simpl in Hb. apply andb_true_iff in Hb as [Hn Hb].
    apply negb_true_iff in Hn. rewrite (IH Hb).
    unfold grbl_name_matches in Hn.
    destruct (access_setting g (getCompatibleValue s) s value w) as [[err s'] w'].
    destruct (getGrblName x) as [gx |]; [rewrite Hn |]; reflexivity.
Qed.

Lemma grbl_name_loop_none (key : string) (value : string_view) (w : World Ext)
      (l : list Setting) :
  forallb (fun x => negb (grbl_name_matches key x)) l = true ->
  grbl_name_loop l key value w = None.
Proof.
  induction l as [| x l IH]; intros Hl; simpl; [reflexivity |].
  simpl in Hl. apply andb_true_iff in Hl as [Hn Hl].
  apply negb_true_iff in Hn. rewrite (IH Hl).
  unfold grbl_name_matches in Hn.
  destruct (getGrblName x) as [gx |]; [rewrite Hn |]; reflexivity.
Qed.

(** The display loop finds something exactly when the matcher accepts the
    name of some setting. *)
Lemma pattern_loop_found (regexMatch : string -> string -> bool) (key : string)
      (l : list Setting) :
  forall (found : bool) (w : World Ext),
    fst (pattern_loop Ext regexMatch l key found w)
    = found || existsb (fun s => regexMatch key (getName s)) l.
Proof.
  induction l as [| s l IH]; intros found w; simpl.
  - now rewrite orb_false_r.
  - destruct (regexMatch key (getName s)); rewrite IH; simpl.
    + now rewrite orb_true_r.
    + reflexivity.
Qed.

(** Either a setting matches a key by name, first in the list, or none does. *)
Lemma first_match {A : Type} (f : A -> bool) (l : list A) :
  forallb (fun x => negb (f x)) l = true
  \/ exists before x after,
       l = before ++ x :: after
       /\ forallb (fun y => negb (f y)) before = true /\ f x = true.
Proof.
  induction l as [| a l IH]; [now left |].
  destruct (f a) eqn:Ha.
  - right. exists [], a, l. now repeat split.
  - destruct IH as [IH | [before [x [after [Hl [Hb Hx]]]]]].
    + left. simpl. now rewrite Ha.
    + right. exists (a :: before), x, after. subst l. repeat split; [| exact Hx].
      simpl. now rewrite Ha.
Qed.

End DispatchFacts.

Section Resolution.

Import Dispatch StringUtil.

Variable Ext : Type.
Variable ENABLE_AUTHENTICATION : bool.
Variable commands : list (Command Ext).
Variable protocol_buffer_synchronize : World Ext -> World Ext.
Variable runtime_setting : string -> string_view -> World Ext -> TreeOutcome * World Ext.
Variable validate : World Ext -> option string * World Ext.
Variable afterParse : World Ext -> option string * World Ext.
Variable setStringValue : Setting -> string -> Error * Setting.
Variable getCompatibleValue : Setting -> string.
Variables regexMatch regexMatch' : string -> string -> bool.

Local Abbreviation dispatch_with matcher :=
  (Dispatch.do_command_or_setting Ext ENABLE_AUTHENTICATION commands
     protocol_buffer_synchronize runtime_setting validate afterParse
     setStringValue getCompatibleValue matcher).
Local Abbreviation dispatch := (dispatch_with regexMatch).
Local Abbreviation run_command :=
  (Dispatch.run_command Ext ENABLE_AUTHENTICATION protocol_buffer_synchronize).
Local Abbreviation access_setting := (Dispatch.access_setting Ext setStringValue).
Local Abbreviation no_command key :=
  (forallb (fun c => negb (command_matches Ext key c)) commands = true).
Local Abbreviation none_by_name key l :=
  (forallb (fun s : Setting => negb (equal_ignore_case (getName s) key)) l = true).
Local Abbreviation none_by_grbl_name key l :=
  (forallb (fun s : Setting => negb (grbl_name_matches key s)) l = true).

(** C1.  The resolver takes the first of: the first command whose name or
    Grbl name is the key; the configuration tree, when its lookup handles
    the key or raises; the first setting whose name is the key; the first
    setting whose Grbl name is the key.  When none of these applies and the
    value is empty, the result is Ok if the matcher accepts the name of
    some setting and InvalidStatement if not; when the value is not empty,
    the result is InvalidStatement in the world the tree lookup left, and
    it is the same result whatever the matcher is. *)
Theorem resolution_order :
  forall (key : string) (value : string_view) (auth_level : AuthenticationLevel)
         (w : World Ext),
    (forall before cp after,
        commands = before ++ cp :: after ->
        forallb (fun c => negb (command_matches Ext key c)) before = true ->
        command_matches Ext key cp = true ->
        dispatch key value auth_level w = run_command cp value auth_level w)
    /\ (no_command key ->
        forall outcome w1,
          runtime_setting key value w = (outcome, w1) ->
          match outcome with
          | Handled =>
              dispatch key value auth_level w = after_handled Ext validate afterParse value w1
          | ParseException _ _ | AssertionFailed _ =>
              fst (dispatch key value auth_level w) = ConfigurationInvalid
          | NotHandled =>
              (forall before s after,
                  settings Ext w1 = before ++ s :: after ->
                  none_by_name key before ->
                  equal_ignore_case (getName s) key = true ->
                  dispatch key value auth_level w
                  = let '(err, s', w2) :=
                      access_setting (getName s) (getStringValue s) s value w1 in
                    (err, with_settings Ext w2 (before ++ s' :: after)))
              /\ (none_by_name key (settings Ext w1) ->
                  forall before s g after,
                    settings Ext w1 = before ++ s :: after ->
                    none_by_grbl_name key before ->
                    getGrblName s = Some g -> equal_ignore_case g key = true ->
                    dispatch key value auth_level w
                    = let '(err, s', w2) :=
                        access_setting g (getCompatibleValue s) s value w1 in
                      (err, with_settings Ext w2 (before ++ s' :: after)))
              /\ (none_by_name key (settings Ext w1) ->
                  none_by_grbl_name key (settings Ext w1) ->
                  (sv_empty value = true ->
                   fst (dispatch key value auth_level w)
                   = if existsb (fun s => regexMatch key (getName s)) (settings Ext w1)
                     then Ok else InvalidStatement)
                  /\ (sv_empty value = false ->
                      dispatch key value auth_level w = (InvalidStatement, w1)
                      /\ dispatch_with regexMatch' key value auth_level w
                         = dispatch key value auth_level w))
          end).
Proof.
  intros key value auth_level w. split.
  - intros before cp after Hc Hb Hm. unfold Dispatch.do_command_or_setting.
    now rewrite Hc, (command_loop_first _ _ _ _ _ _ _ _ _ _ Hb Hm).
  - intros Hnc outcome w1 Hrt.
    unfold Dispatch.do_command_or_setting.
    rewrite !(command_loop_none _ _ _ _ _ _ _ _ Hnc), Hrt.
    destruct outcome as [| | line what | what]; try reflexivity.
    split; [| split].
    + intros before s after Hl Hb Hs.
      rewrite Hl, (name_loop_first _ _ _ _ _ _ _ _ Hb Hs).
      destruct (access_setting (getName s) (getStringValue s) s value w1) as [[err s'] w2].
      reflexivity.
    + intros Hn before s g after Hl Hb Hg Hs.
      rewrite (name_loop_none _ _ _ _ _ _ Hn).
      rewrite Hl, (grbl_name_loop_first _ _ _ _ _ _ _ _ _ _ Hb Hg Hs).
      destruct (access_setting g (getCompatibleValue s) s value w1) as [[err s'] w2].
      reflexivity.
    + intros Hn Hg.
      rewrite !(name_loop_none _ _ _ _ _ _ Hn), !(grbl_name_loop_none _ _ _ _ _ _ _ Hg).
      split; intros He; rewrite He.
      * pose proof (pattern_loop_found Ext regexMatch key (settings Ext w1) false w1) as Hf.
        destruct (pattern_loop Ext regexMatch (settings Ext w1) key false w1) as [found w2].
        simpl in Hf. rewrite <- Hf. now destruct found.
      * split; reflexivity.
Qed.

End Resolution.

Lemma resolution_order_witness :
  Fixtures.do_command_or_setting "nosuch" (Some "1") LEVEL_ADMIN Fixtures.dispatch_world
  = (InvalidStatement, Fixtures.dispatch_world)
  /\ Fixtures.do_command_or_setting "i" None LEVEL_GUEST Fixtures.dispatch_world
     = Fixtures.get_report_build_info None LEVEL_GUEST Fixtures.dispatch_world.
Proof.
  split.
  - pose proof (resolution_order unit true Fixtures.commands (fun w => w)
                  (fun _ _ w => (Dispatch.NotHandled, w)) (fun w => (None, w))
                  (fun w => (None, w)) Fixtures.setStringValue getStringValue
                  String.prefix String.prefix
                  "nosuch" (Some "1") LEVEL_ADMIN Fixtures.dispatch_world) as [_ H].
    specialize (H eq_refl Dispatch.NotHandled Fixtures.dispatch_world eq_refl).
    destruct H as [_ [_ H]]. destruct (H eq_refl eq_refl) as [_ H2].
    exact (proj1 (H2 eq_refl)).
  - pose proof (resolution_order unit true Fixtures.commands (fun w => w)
                  (fun _ _ w => (Dispatch.NotHandled, w)) (fun w => (None, w))
                  (fun w => (None, w)) Fixtures.setStringValue getStringValue
                  String.prefix String.prefix
                  "i" None LEVEL_GUEST Fixtures.dispatch_world) as [H _].
    exact (H [] _ [] eq_refl eq_refl eq_refl).
Defined.

Section FlatSettings.

Import Dispatch StringUtil.

Variable Ext : Type.
Variable ENABLE_AUTHENTICATION : bool.
Variable commands : list (Command Ext).
Variable protocol_buffer_synchronize : World Ext -> World Ext.
Variable runtime_setting : string -> string_view -> World Ext -> TreeOutcome * World Ext.
Variable validate : World Ext -> option string * World Ext.
Variable afterParse : World Ext -> option string * World Ext.
Variable setStringValue : Setting -> string -> Error * Setting.
Variable getCompatibleValue : Setting -> string.
Variable regexMatch : string -> string -> bool.

Local Abbreviation dispatch :=
  (Dispatch.do_command_or_setting Ext ENABLE_AUTHENTICATION commands
     protocol_buffer_synchronize runtime_setting validate afterParse
     setStringValue getCompatibleValue regexMatch).
Local Abbreviation access_setting := (Dispatch.access_setting Ext setStringValue).
Local Abbreviation name_loop := (Dispatch.name_loop Ext setStringValue).
Local Abbreviation grbl_name_loop := (Dispatch.grbl_name_loop Ext setStringValue getCompatibleValue).

Lemma access_setting_error (shown_name shown_value : string) (s : Setting)
      (value : string_view) (w : World Ext) :
  (forall s v, fst (setStringValue s v) <> AuthenticationFailed) ->
  fst (fst (access_setting shown_name shown_value s value w)) <> AuthenticationFailed.
Proof.
  intros Hset. unfold Dispatch.access_setting, Dispatch.write_setting.
  destruct (sv_empty value); [discriminate |].
  destruct (Codec.uriDecode value (dec Ext w)) as [str d].
  specialize (Hset s str). destruct (setStringValue s str) as [err s']. exact Hset.
Qed.

(** A view without characters is read the same way whether or not it was
    ever attached to the line. *)
Lemma access_setting_empty (shown_name shown_value : string) (s : Setting) (w : World Ext) :
  access_setting shown_name shown_value s (Some ""%string) w
  = access_setting shown_name shown_value s None w
  /\ access_setting shown_name shown_value s None w
     = (Ok, s, show_setting Ext shown_name shown_value None w).
Proof. split; reflexivity. Qed.

(** C10.  For a key that no command bears and the configuration tree does
    not handle, and that is the name or the Grbl name of some setting, the
    result and the world left are the same for any two authentication
    levels, with authentication compiled in or not; and unless the
    setting's own [setStringValue] returns AuthenticationFailed, the
    resolver does not. *)
Theorem flat_setting_access_ignores_auth_level :
  forall (key : string) (value : string_view) (level1 level2 : AuthenticationLevel)
         (w w1 : World Ext),
    forallb (fun c => negb (command_matches Ext key c)) commands = true ->
    runtime_setting key value w = (NotHandled, w1) ->
    existsb (fun s => equal_ignore_case (getName s) key) (settings Ext w1)
    || existsb (grbl_name_matches key) (settings Ext w1) = true ->
    dispatch key value level1 w = dispatch key value level2 w
    /\ ((forall s v, fst (setStringValue s v) <> AuthenticationFailed) ->
        fst (dispatch key value level1 w) <> AuthenticationFailed).
Proof.
  intros key value level1 level2 w w1 Hnc Hrt Hex.
  unfold Dispatch.do_command_or_setting.
  rewrite !(command_loop_none _ _ _ _ _ _ _ _ Hnc), Hrt.
  split; [reflexivity |].
  intros Hset.
  destruct (first_match (fun s => equal_ignore_case (getName s) key) (settings Ext w1))
    as [Hn | [before [s [after [Hl [Hb Hs]]]]]].
  - rewrite (name_loop_none _ _ _ _ _ _ Hn).
    destruct (first_match (grbl_name_matches key) (settings Ext w1))
      as [Hg | [before [s [after [Hl [Hb Hs]]]]]].
    + exfalso. apply orb_true_iff in Hex as [Hex | Hex];
        apply existsb_exists in Hex as [x [Hin Hx]].
      * rewrite forallb_forall in Hn. specialize (Hn x Hin). now rewrite Hx in Hn.
      * rewrite forallb_forall in Hg. specialize (Hg x Hin). now rewrite Hx in Hg.
    + unfold grbl_name_matches in Hs.
      destruct (getGrblName s) as [g |] eqn:Hg; [| discriminate Hs].
      rewrite Hl, (grbl_name_loop_first _ _ _ _ _ _ _ _ _ _ Hb Hg Hs).
      pose proof (access_setting_error g (getCompatibleValue s) s value w1 Hset) as He.
      destruct (access_setting g (getCompatibleValue s) s value w1) as [[err s'] w2].
      exact He.
  - rewrite Hl, (name_loop_first _ _ _ _ _ _ _ _ Hb Hs).
    pose proof (access_setting_error (getName s) (getStringValue s) s value w1 Hset) as He.
    destruct (access_setting (getName s) (getStringValue s) s value w1) as [[err s'] w2].
    exact He.
Qed.

End FlatSettings.

Lemma flat_setting_access_ignores_auth_level_witness :
  Fixtures.do_command_or_setting "foo" (Some "zap") LEVEL_GUEST Fixtures.dispatch_world
  = Fixtures.do_command_or_setting "foo" (Some "zap") LEVEL_ADMIN Fixtures.dispatch_world
  /\ fst (Fixtures.do_command_or_setting "foo" (Some "zap") LEVEL_GUEST Fixtures.dispatch_world)
     <> AuthenticationFailed.
Proof.
  destruct (flat_setting_access_ignores_auth_level unit true Fixtures.commands (fun w => w)
              (fun _ _ w => (Dispatch.NotHandled, w)) (fun w => (None, w))
              (fun w => (None, w)) Fixtures.setStringValue getStringValue String.prefix
              "foo" (Some "zap") LEVEL_GUEST LEVEL_ADMIN
              Fixtures.dispatch_world Fixtures.dispatch_world eq_refl eq_refl eq_refl)
    as [H1 H2].
  split; [exact H1 |].
  apply H2. intros s v. simpl. discriminate.
Defined.

(** C3.  The line "$Foo=" (separator found, nothing after it) and the line
    "$Foo" (no separator) reach the resolver with distinct values, and
    the resolver answers both the same way: it displays the current value
    of the setting and writes nothing. *)
Theorem empty_value_is_read_not_written :
  StringUtil.split "Foo=" "=" = ("Foo"%string, Some ""%string)
  /\ StringUtil.split "Foo" "=" = ("Foo"%string, None)
  /\ Fixtures.settings_execute_line "$Foo=" LEVEL_ADMIN Fixtures.dispatch_world
     = Fixtures.settings_execute_line "$Foo" LEVEL_ADMIN Fixtures.dispatch_world
  /\ Fixtures.settings_execute_line "$Foo=" LEVEL_ADMIN Fixtures.dispatch_world
     = (Ok, Dispatch.mkWorld unit [Fixtures.foo; Fixtures.web] (Codec.mkDec "" [])
              ["$Foo=bar"%string] [] tt)
  /\ getStringValue Fixtures.foo = "bar"%string.
Proof. repeat split. Qed.

(** * Further properties *)

(** ** Percent codec *)

Section CodecMore.

Import Codec SpecWords.

Lemma string_forallb_app (f : ascii -> bool) (a b : string) :
  string_forallb f (a ++ b) = string_forallb f a && string_forallb f b.
Proof.
  induction a as [| c a IH]; simpl; [reflexivity |].
  now rewrite IH, andb_assoc.
Qed.

Lemma c_str_idempotent (s : string) : c_str (c_str s) = c_str s.
Proof.
  induction s as [| c s IH]; simpl; [reflexivity |].
  destruct (Ascii.eqb c zero) eqn:E; simpl; [reflexivity |].
  now rewrite E, IH.
Qed.

Lemma uriEncode_c_str (s : string) :
  uriEncodeGrblCharacters (c_str s) = uriEncodeGrblCharacters s.
Proof.
  induction s as [| c s IH]; simpl; [reflexivity |].
  destruct (Ascii.eqb c zero) eqn:E; simpl; [reflexivity |].
  now rewrite E, IH.
Qed.

Lemma string_length_append (a b : string) :
  String.length (a ++ b) = (String.length a + String.length b)%nat.
Proof. induction a as [| c a IH]; simpl; [reflexivity | now rewrite IH]. Qed.

Lemma uriDecode_of_encoded (s : string) (lg : list string) :
  uriDecode (Some (uriEncodeGrblCharacters s)) (mkDec "" lg)
  = (c_str s, mkDec (c_str s) lg).
Proof.
  unfold uriDecode. simpl sv_str.
  rewrite <- uriEncode_c_str.
  rewrite <- (append_empty_r (uriEncodeGrblCharacters (c_str s))).
  rewrite (uriDecode_loop_encoded (c_str s) (c_str_idempotent s)).
  reflexivity.
Qed.

End CodecMore.

(** X1.  Whatever the value, the text [uriEncodeGrblCharacters] produces
    holds none of the real-time characters '!', '?' and '~'. *)
Theorem uriEncode_emits_no_realtime_character :
  forall s : string,
    SpecWords.string_forallb
      (fun c => negb (Ascii.eqb c "!") && negb (Ascii.eqb c "?") && negb (Ascii.eqb c "~"))
      (Codec.uriEncodeGrblCharacters s) = true.
Proof.
  induction s as [| c s IH]; simpl; [reflexivity |].
  destruct (Ascii.eqb c zero); [reflexivity |].
  rewrite string_forallb_app, IH, andb_true_r.
  destruct (Ascii.eqb c "%") eqn:E1; [reflexivity |].
  destruct (Ascii.eqb c "!") eqn:E2; [reflexivity |].
  destruct (Ascii.eqb c "?") eqn:E3; [reflexivity |].
  destruct (Ascii.eqb c "~") eqn:E4; [reflexivity |].
  simpl. now rewrite E2, E3, E4.
Qed.

(** X2.  The encoded text is at least as long as the C string it encodes
    and at most three times as long. *)
Theorem uriEncode_length_bounds :
  forall s : string,
    (String.length (c_str s) <= String.length (Codec.uriEncodeGrblCharacters s)
     <= 3 * String.length (c_str s))%nat.
Proof.
  induction s as [| c s IH]; simpl; [lia |].
  destruct (Ascii.eqb c zero); simpl; [lia |].
  rewrite string_length_append.
  destruct (Ascii.eqb c "%"); [simpl; lia |].
  destruct (Ascii.eqb c "!"); [simpl; lia |].
  destruct (Ascii.eqb c "?"); [simpl; lia |].
  destruct (Ascii.eqb c "~"); simpl; lia.
Qed.

(** X3.  Calls of [uriDecode] add up: a call made after another returns
    what the earlier call returned followed by what it would return on an
    empty buffer. *)
Theorem uriDecode_calls_accumulate :
  forall (s1 s2 : string_view) (st : Codec.DecState),
    fst (Codec.uriDecode s2 (snd (Codec.uriDecode s1 st)))
    = (fst (Codec.uriDecode s1 st) ++ fst (Codec.uriDecode s2 (Codec.mkDec "" [])))%string.
Proof.
  intros s1 s2 st. unfold Codec.uriDecode. simpl.
  now rewrite uriDecode_loop_appends.
Qed.

(** X4.  On an empty buffer, decoding the encoding of any value gives the
    value back (as a C string), and logs nothing. *)
Theorem uriDecode_inverts_uriEncode_on_empty_buffer :
  forall (s : string) (lg : list string),
    Codec.uriDecode (Some (Codec.uriEncodeGrblCharacters s)) (Codec.mkDec "" lg)
    = (c_str s, Codec.mkDec (c_str s) lg).
Proof.
  intros s lg. apply uriDecode_of_encoded.
Qed.

Section CodecLog.

Import Codec SpecWords.

Lemma uriDecode_loop_log (s : string) :
  forall st,
    dec_log (uriDecode_loop s st) = dec_log st
    \/ exists msg, dec_log (uriDecode_loop s st) = dec_log st ++ [msg].
Proof.
  assert (G : forall n s, (String.length s <= n)%nat -> forall st,
               dec_log (uriDecode_loop s st) = dec_log st
               \/ exists msg, dec_log (uriDecode_loop s st) = dec_log st ++ [msg]).
  { induction n as [| n IH]; intros [| c s1] Hlen st; simpl in *;
      try (now left); try lia.
    destruct (Ascii.eqb c "%").
    - destruct s1 as [| h [| l s3]]; simpl; try (right; eexists; reflexivity).
      destruct (from_hex h l) as [esc |]; [| right; eexists; reflexivity].
      apply (IH s3 ltac:(simpl in Hlen; lia) (push_char st esc)).
    - apply (IH s1 ltac:(lia) (push_char st c)). }
  intros st. now apply (G (String.length s)).
Qed.

Lemma uriDecode_loop_plain (s : string) :
  string_existsb (fun c => Ascii.eqb c "%") s = false ->
  forall st, uriDecode_loop s st = mkDec (decoded st ++ s) (dec_log st).
Proof.
  induction s as [| c s IH]; intros Hs st; simpl in *.
  - rewrite append_empty_r. now destruct st.
  - apply orb_false_iff in Hs as [Hc Hs]. rewrite Hc, (IH Hs). simpl.
    now rewrite append_assoc.
Qed.

End CodecLog.

(** X5.  A call of [uriDecode] logs at most one error, and a value
    without '%' is added to the buffer as it is, without an error. *)
Theorem uriDecode_logs_at_most_once :
  forall (s : string_view) (st : Codec.DecState),
    (Codec.dec_log (snd (Codec.uriDecode s st)) = Codec.dec_log st
     \/ exists msg, Codec.dec_log (snd (Codec.uriDecode s st)) = Codec.dec_log st ++ [msg])
    /\ (SpecWords.string_existsb (fun c => Ascii.eqb c "%") (sv_str s) = false ->
        Codec.uriDecode s st
        = ((Codec.decoded st ++ sv_str s)%string,
           Codec.mkDec (Codec.decoded st ++ sv_str s) (Codec.dec_log st))).
Proof.
  intros s st. split.
  - unfold Codec.uriDecode. simpl. apply uriDecode_loop_log.
  - intros Hs. unfold Codec.uriDecode. now rewrite (uriDecode_loop_plain _ Hs).
Qed.

Lemma uriDecode_logs_at_most_once_witness :
  Codec.uriDecode (Some "G1 X5") (Codec.mkDec "$" [])
  = ("$G1 X5"%string, Codec.mkDec "$G1 X5" []).
Proof.
  apply (proj2 (uriDecode_logs_at_most_once (Some "G1 X5") (Codec.mkDec "$" []))).
  reflexivity.
Defined.

(** ** Authentication gate *)

(** X6.  The gate is ordered: where a level is refused, every lower level
    is refused too (Admin, then User, then Guest), and a read is never
    refused where a write is allowed. *)
Theorem auth_failed_is_monotone :
  forall (enabled : bool) (permission : permissions_t) (value : string_view),
    Bool.le (Auth.auth_failed enabled permission value LEVEL_ADMIN)
            (Auth.auth_failed enabled permission value LEVEL_USER)
    /\ Bool.le (Auth.auth_failed enabled permission value LEVEL_USER)
               (Auth.auth_failed enabled permission value LEVEL_GUEST)
    /\ forall level,
        Bool.le (Auth.auth_failed enabled permission None level)
                (Auth.auth_failed enabled permission value level).
Proof.
  intros enabled permission value.
  destruct enabled, permission; simpl; repeat split;
    try (destruct (sv_empty value); simpl; auto; fail);
    intros []; simpl; auto; destruct (sv_empty value); simpl; auto.
Qed.

(** ** Restore engine *)

Section RestoreMore.

Import Restore MoreWords.

Variable type_code : type_t -> Z.
Variables Defaults Parameters StartupLines Wifi : Z.
Variable CoordData : Type.

Local Abbreviation restore :=
  (Restore.settings_restore type_code Defaults Parameters StartupLines Wifi CoordData).
Local Abbreviation reset flag :=
  (MoreWords.reset_by type_code Defaults StartupLines Wifi flag).

Lemma setDefault_idempotent (s : Setting) : setDefault (setDefault s) = setDefault s.
Proof. reflexivity. Qed.

Lemma wifi_condition_setDefault (s : Setting) :
  wifi_condition type_code (setDefault s) = wifi_condition type_code s.
Proof. reflexivity. Qed.

Lemma defaults_condition_setDefault (b : bool) (s : Setting) :
  defaults_condition b (setDefault s) = defaults_condition b s.
Proof. reflexivity. Qed.

(** The two setting passes together reset the settings either selects. *)
Lemma settings_restore_settings (flag : Z) (w : World CoordData) :
  settings CoordData (restore flag w)
  = map (fun s => if reset flag s then setDefault s else s) (settings CoordData w).
Proof.
  unfold Restore.settings_restore, reset_by. cbv zeta.
  destruct (flag_set flag Wifi); destruct (flag_set flag Defaults);
    destruct (flag_set flag Parameters);
    repeat (rewrite !restore_pass_spec; cbn [Restore.settings]);
    rewrite ?map_map; simpl;
    try (symmetry; apply map_id);
    apply map_ext; intros s;
    rewrite ?orb_false_r;
    try (destruct (wifi_condition type_code s); simpl;
         rewrite ?defaults_condition_setDefault;
         destruct (defaults_condition (flag_set flag StartupLines) s));
    reflexivity.
Qed.

Lemma settings_restore_coords (flag : Z) (w : World CoordData) :
  coords CoordData (restore flag w)
  = (if flag_set flag Parameters then map (coord_setDefault CoordData) (coords CoordData w)
     else coords CoordData w)
  /\ coord_select CoordData (restore flag w) = coord_select CoordData w
  /\ coord_system CoordData (restore flag w)
     = (if flag_set flag Parameters then
          match nth_error (coords CoordData w) (coord_select CoordData w) with
          | Some c => coord_default CoordData c
          | None => coord_system CoordData w
          end
        else coord_system CoordData w)
  /\ report_wco_counter CoordData (restore flag w)
     = (if flag_set flag Parameters then 0%Z else report_wco_counter CoordData w).
Proof.
  unfold Restore.settings_restore. cbv zeta.
  destruct (flag_set flag Wifi);
    [destruct (restore_pass (wifi_condition type_code) (settings CoordData w)) |];
    cbn [Restore.settings Restore.coords Restore.coord_select Restore.coord_system
         Restore.report_wco_counter Restore.setDefault_calls Restore.info_log];
    (destruct (flag_set flag Defaults);
     [match goal with
      | |- context [restore_pass ?c ?l] => destruct (restore_pass c l)
      end |]);
    cbn [Restore.settings Restore.coords Restore.coord_select Restore.coord_system
         Restore.report_wco_counter Restore.setDefault_calls Restore.info_log];
    destruct (flag_set flag Parameters);
    cbn [Restore.settings Restore.coords Restore.coord_select Restore.coord_system
         Restore.report_wco_counter Restore.setDefault_calls Restore.info_log];
    repeat split;
    rewrite ?nth_error_map;
    destruct (nth_error (coords CoordData w) (coord_select CoordData w)); reflexivity.
Qed.

End RestoreMore.

(** X7.  A restore whose flags hold Parameters and neither Wifi nor
    Defaults leaves every setting alone: it puts every coordinate system
    back to its default, reloads the selected one into the interpreter
    and zeroes the WCO report counter. *)
Theorem settings_restore_parameters_only :
  forall (type_code : type_t -> Z) (Defaults Parameters StartupLines Wifi : Z)
         (CoordData : Type) (restore_flag : Z) (w : Restore.World CoordData),
    Restore.flag_set restore_flag Wifi = false ->
    Restore.flag_set restore_flag Defaults = false ->
    Restore.flag_set restore_flag Parameters = true ->
    let w' := Restore.settings_restore type_code Defaults Parameters StartupLines Wifi
                                       CoordData restore_flag w in
    Restore.settings CoordData w' = Restore.settings CoordData w
    /\ Restore.setDefault_calls CoordData w' = Restore.setDefault_calls CoordData w
    /\ Restore.coords CoordData w'
       = map (Restore.coord_setDefault CoordData) (Restore.coords CoordData w)
    /\ (forall c, In c (Restore.coords CoordData w') ->
                  Restore.coord_value CoordData c = Restore.coord_default CoordData c)
    /\ (forall c, nth_error (Restore.coords CoordData w) (Restore.coord_select CoordData w)
                  = Some c ->
                  Restore.coord_system CoordData w' = Restore.coord_default CoordData c)
    /\ Restore.report_wco_counter CoordData w' = 0%Z.
Proof.
  intros type_code Defaults Parameters StartupLines Wifi CoordData restore_flag w
         HW HD HP w'.
  subst w'. unfold Restore.settings_restore. rewrite HW, HD, HP. simpl.
  repeat split.
  - intros c Hc. apply in_map_iff in Hc as [c0 [<- _]]. reflexivity.
  - intros c Hc. rewrite nth_error_map, Hc. reflexivity.
Qed.

Lemma settings_restore_parameters_only_witness :
  Restore.settings Z (Examples.settings_restore 2 Examples.coord_world)
  = Restore.settings Z Examples.coord_world
  /\ Restore.coords Z (Examples.settings_restore 2 Examples.coord_world)
     = [Restore.mkCoord Z 0%Z 0%Z; Restore.mkCoord Z 1%Z 1%Z]
  /\ Restore.coord_system Z (Examples.settings_restore 2 Examples.coord_world) = 1%Z.
Proof.
  destruct (settings_restore_parameters_only Restore.declared_type_code
              Fixtures.bit_Defaults Fixtures.bit_Parameters Fixtures.bit_StartupLines
              Fixtures.bit_Wifi Z 2%Z Examples.coord_world eq_refl eq_refl eq_refl)
    as [Hs [_ [Hc [_ [Hsys _]]]]].
  split; [exact Hs |]. split; [exact Hc |].
  exact (Hsys (Restore.mkCoord Z 7%Z 1%Z) eq_refl).
Defined.

(** X8.  Whatever the flags, a restore keeps the registry itself: the same
    settings in the same order, with their names, Grbl names, types,
    permissions, descriptions and defaults; each value afterwards is
    either the value before or the default. *)
Theorem settings_restore_keeps_identities :
  forall (type_code : type_t -> Z) (Defaults Parameters StartupLines Wifi : Z)
         (CoordData : Type) (restore_flag : Z) (w : Restore.World CoordData),
    let w' := Restore.settings_restore type_code Defaults Parameters StartupLines Wifi
                                       CoordData restore_flag w in
    map MoreWords.identity (Restore.settings CoordData w')
    = map MoreWords.identity (Restore.settings CoordData w)
    /\ Forall2 (fun s s' => getStringValue s' = getStringValue s
                            \/ getStringValue s' = getDefaultString s)
               (Restore.settings CoordData w) (Restore.settings CoordData w').
Proof.
  intros type_code Defaults Parameters StartupLines Wifi CoordData restore_flag w w'.
  subst w'. rewrite settings_restore_settings.
  induction (Restore.settings CoordData w) as [| s l [IH1 IH2]]; simpl.
  - split; [reflexivity | constructor].
  - split.
    + f_equal; [| exact IH1].
      now destruct (MoreWords.reset_by type_code Defaults StartupLines Wifi restore_flag s).
    + constructor; [| exact IH2].
      destruct (MoreWords.reset_by type_code Defaults StartupLines Wifi restore_flag s);
        [right | left]; reflexivity.
Qed.

(** X9.  Restoring twice with the same flags leaves the settings, the
    coordinate systems, the loaded coordinate system and the WCO counter
    as restoring once does. *)
Theorem settings_restore_idempotent :
  forall (type_code : type_t -> Z) (Defaults Parameters StartupLines Wifi : Z)
         (CoordData : Type) (restore_flag : Z) (w : Restore.World CoordData),
    let restore := Restore.settings_restore type_code Defaults Parameters StartupLines Wifi
                                            CoordData restore_flag in
    Restore.settings CoordData (restore (restore w)) = Restore.settings CoordData (restore w)
    /\ Restore.coords CoordData (restore (restore w)) = Restore.coords CoordData (restore w)
    /\ Restore.coord_system CoordData (restore (restore w))
       = Restore.coord_system CoordData (restore w)
    /\ Restore.report_wco_counter CoordData (restore (restore w))
       = Restore.report_wco_counter CoordData (restore w).
Proof.
  intros type_code Defaults Parameters StartupLines Wifi CoordData restore_flag w restore.
  subst restore.
  pose proof (settings_restore_coords type_code Defaults Parameters StartupLines Wifi
                CoordData restore_flag w) as [Hc [Hsel [Hsys Hcnt]]].
  pose proof (settings_restore_coords type_code Defaults Parameters StartupLines Wifi
                CoordData restore_flag
                (Restore.settings_restore type_code Defaults Parameters StartupLines Wifi
                                          CoordData restore_flag w))
    as [Hc2 [_ [Hsys2 Hcnt2]]].
  split; [| split; [| split]].
  - rewrite !settings_restore_settings, map_map. apply map_ext. intros s.
    destruct (MoreWords.reset_by type_code Defaults StartupLines Wifi restore_flag s) eqn:E.
    + change (MoreWords.reset_by type_code Defaults StartupLines Wifi restore_flag
                                 (setDefault s))
        with (MoreWords.reset_by type_code Defaults StartupLines Wifi restore_flag s).
      now rewrite E.
    + now rewrite E.
  - rewrite Hc2, Hc.
    destruct (Restore.flag_set restore_flag Parameters); [| reflexivity].
    rewrite map_map. apply map_ext. intros c. reflexivity.
  - rewrite Hsys2, Hsys, Hsel, Hc.
    destruct (Restore.flag_set restore_flag Parameters); [| reflexivity].
    rewrite nth_error_map.
    destruct (nth_error (Restore.coords CoordData w) (Restore.coord_select CoordData w));
      reflexivity.
  - rewrite Hcnt2, Hcnt.
    destruct (Restore.flag_set restore_flag Parameters); reflexivity.
Qed.

(** X10.  Provided the Wifi pass selects nothing (the Wifi flag is absent,
    or no enumerator of [type_t] has the value 0), a restore never changes
    a setting that has a description, and changes a setting named "Line0"
    or "Line1" only when the StartupLines flag is given. *)
Theorem settings_restore_spares_described_and_startup_lines :
  forall (type_code : type_t -> Z) (Defaults Parameters StartupLines Wifi : Z)
         (CoordData : Type) (restore_flag : Z) (w : Restore.World CoordData)
         (i : nat) (s : Setting),
    (Restore.flag_set restore_flag Wifi = true -> forall t, type_code t <> 0%Z) ->
    nth_error (Restore.settings CoordData w) i = Some s ->
    getDescription s <> None
    \/ (Restore.flag_set restore_flag StartupLines = false
        /\ (getName s = "Line0"%string \/ getName s = "Line1"%string)) ->
    nth_error
      (Restore.settings CoordData
         (Restore.settings_restore type_code Defaults Parameters StartupLines Wifi
                                   CoordData restore_flag w)) i
    = Some s.
Proof.
  intros type_code Defaults Parameters StartupLines Wifi CoordData restore_flag w i s
         HW Hn Hs.
  rewrite settings_restore_settings, nth_error_map, Hn. simpl.
  assert (E : MoreWords.reset_by type_code Defaults StartupLines Wifi restore_flag s = false).
  { unfold MoreWords.reset_by. apply orb_false_iff. split.
    - destruct (Restore.flag_set restore_flag Wifi); [| reflexivity].
      simpl. apply wifi_condition_nonzero_codes. now apply HW.
    - apply andb_false_iff. right. unfold Restore.defaults_condition.
      destruct Hs as [Hd | [Hsl [Hl | Hl]]].
      + destruct (getDescription s); [reflexivity | now contradiction Hd].
      + rewrite Hsl, Hl. now destruct (getDescription s).
      + rewrite Hsl, Hl. now destruct (getDescription s). }
  now rewrite E.
Qed.

Lemma settings_restore_spares_described_and_startup_lines_witness :
  nth_error (Restore.settings Z (Examples.settings_restore 17 Examples.coord_world)) 2
  = Some (mkSetting "Line0" None EXTENDED WG None "G0" "")
  /\ nth_error (Restore.settings Z (Examples.settings_restore 21 Examples.coord_world)) 3
     = Some (mkSetting "Hostname" None WEBSET WA (Some "host") "cnc" "fluidnc").
Proof.
  split.
  - apply (settings_restore_spares_described_and_startup_lines
             Restore.declared_type_code Fixtures.bit_Defaults Fixtures.bit_Parameters
             Fixtures.bit_StartupLines Fixtures.bit_Wifi Z 17%Z Examples.coord_world 2).
    + intros _ t. destruct t; simpl; lia.
    + reflexivity.
    + right. split; [reflexivity | left; reflexivity].
  - apply (settings_restore_spares_described_and_startup_lines
             Restore.declared_type_code Fixtures.bit_Defaults Fixtures.bit_Parameters
             Fixtures.bit_StartupLines Fixtures.bit_Wifi Z 21%Z Examples.coord_world 3).
    + intros _ t. destruct t; simpl; lia.
    + reflexivity.
    + left. simpl. discriminate.
Defined.

(** ** Check mode, homing, unlock *)

(** X11.  The check-mode toggle returns Ok exactly from Idle and from
    CheckMode, and the state is CheckMode after both; it never clears the
    abort request and raises it exactly when it is given in CheckMode; it
    leaves the pins, the door, the homing mask and the axes alone. *)
Theorem toggle_check_mode_ok_cases :
  forall (value : option string) (auth_level : AuthenticationLevel) (m : Machine.Machine),
    let r := Machine.toggle_check_mode value auth_level m in
    (fst r = Ok <-> Machine.sys_state m = Idle \/ Machine.sys_state m = CheckMode)
    /\ (fst r = Ok -> Machine.sys_state (snd r) = CheckMode)
    /\ Machine.sys_abort (snd r)
       = Machine.sys_abort m || State_eqb (Machine.sys_state m) CheckMode
    /\ Machine.pins_block_unlock (snd r) = Machine.pins_block_unlock m
    /\ Machine.safety_door_ajar (snd r) = Machine.safety_door_ajar m
    /\ Machine.homingMask (snd r) = Machine.homingMask m
    /\ Machine.axes (snd r) = Machine.axes m.
Proof.
  intros value auth_level [st ab pins door hm ax fb] r. subst r.
  unfold Machine.toggle_check_mode, Machine.state_is. simpl.
  destruct st; simpl; rewrite ?orb_false_r, ?orb_true_r;
    repeat split; intros; try reflexivity; try discriminate;
    try (now left); try (now right);
    match goal with
    | H : _ \/ _ |- _ => destruct H; discriminate
    end.
Qed.

Lemma toggle_check_mode_ok_cases_witness :
  Machine.sys_state
    (snd (Machine.toggle_check_mode None LEVEL_GUEST (Fixtures.machine_in Idle)))
  = CheckMode.
Proof.
  destruct (toggle_check_mode_ok_cases None LEVEL_GUEST (Fixtures.machine_in Idle))
    as [_ [H _]].
  apply H. reflexivity.
Defined.

Section HomeMore.

Import Machine SpecWords.

Variable AllCycles : AxisMask.
Variable run_cycles : AxisMask -> Machine -> Machine.
Variable protocol_execute_realtime : Machine -> Machine.

Local Abbreviation home := (Machine.home AllCycles run_cycles protocol_execute_realtime).
Local Abbreviation wait_homing := (Machine.wait_homing protocol_execute_realtime).

Lemma wait_homing_exit (fuel : nat) :
  forall m m', wait_homing fuel m = Some m' -> sys_state m' <> Homing.
Proof.
  induction fuel as [| fuel IH]; intros m m' H; simpl in H; [discriminate H |].
  unfold state_is in H.
  destruct (State_eqb (sys_state (protocol_execute_realtime m)) Homing) eqn:E.
  - now apply (IH _ _ H).
  - injection H as <-. now apply State_eqb_neq.
Qed.

Lemma wait_homing_more_fuel (fuel : nat) :
  forall fuel' m m',
    wait_homing fuel m = Some m' -> (fuel <= fuel')%nat -> wait_homing fuel' m = Some m'.
Proof.
  induction fuel as [| fuel IH]; intros fuel' m m' H Hle; simpl in H; [discriminate H |].
  destruct fuel' as [| fuel']; [lia |]. simpl.
  destruct (state_is (protocol_execute_realtime m) Homing).
  - apply (IH fuel' _ _ H). lia.
  - exact H.
Qed.

Lemma requests_app (a b : list Event) : requests (a ++ b) = requests a ++ requests b.
Proof.
  induction a as [| [] a IH]; simpl; rewrite ?IH; reflexivity.
Qed.

(** The second loop of [home_all] requests the cycles of a prefix of its
    digits, in their order, when the cycle table does not change. *)
Lemma home_cycles_requests (table : Z -> AxisMask) (fuel : nat) (v : string) :
  forall w e w',
    Machine.home_cycles AllCycles run_cycles protocol_execute_realtime
                        (fun _ => table) fuel v Ok w = Some (e, w') ->
    exists n,
      (n <= String.length v)%nat
      /\ requests (trace w')
         = requests (trace w)
             ++ map (fun c => table (digit_value c)) (firstn n (list_ascii_of_string v))
      /\ (e = Ok -> n = String.length v)
      /\ (e <> Ok -> (n < String.length v)%nat).
Proof.
  induction v as [| c v IH]; intros w e w' H; simpl in H.
  - injection H as <- <-. exists 0%nat. simpl. rewrite app_nil_r.
    repeat split; try reflexivity; try lia. intros Hne. now contradiction Hne.
  - destruct (home fuel (table (digit_value c)) w) as [[r w1] |] eqn:Hh; [| discriminate H].
    destruct (Error_eqb r Ok) eqn:Er.
    + assert (r = Ok) as -> by (destruct r; try discriminate Er; reflexivity).
      apply home_ok_trace in Hh as [Ht _].
      destruct (IH _ _ _ H) as [n [Hn [Hr [Hok Herr]]]].
      exists (S n). simpl. rewrite Hr, Ht, requests_app, <- app_assoc. simpl.
      repeat split; try reflexivity; try lia.
      * intros He. f_equal. now apply Hok.
      * intros He. specialize (Herr He). lia.
    + assert (Hne : r <> Ok) by (intros ->; discriminate Er).
      pose proof (home_error_keeps_world _ _ _ _ _ _ _ _ Hh Hne) as ->.
      assert (e = r /\ w' = w) as [-> ->]
          by (destruct r; try discriminate Er; injection H as <- <-; now split).
      exists 0%nat. simpl. rewrite app_nil_r.
      repeat split; try reflexivity; try lia. intros He. now contradiction Hne.
Qed.

End HomeMore.

(** X12.  [home] returns Ok only when the machine has left the Homing
    state, and a result obtained with some bound on the wait loop is the
    result with any larger bound. *)
Theorem home_returns_when_homing_is_over :
  forall (AllCycles : Machine.AxisMask)
         (run_cycles : Machine.AxisMask -> Machine.Machine -> Machine.Machine)
         (protocol_execute_realtime : Machine.Machine -> Machine.Machine)
         (fuel : nat) (axisMask : Machine.AxisMask) (w : Machine.World)
         (e : Error) (w' : Machine.World),
    Machine.home AllCycles run_cycles protocol_execute_realtime fuel axisMask w
    = Some (e, w') ->
    (e = Ok -> Machine.sys_state (Machine.machine w') <> Homing)
    /\ forall fuel', (fuel <= fuel')%nat ->
         Machine.home AllCycles run_cycles protocol_execute_realtime fuel' axisMask w
         = Some (e, w').
Proof.
  intros AllCycles run_cycles per fuel axisMask w e w' H.
  rewrite home_decides in H.
  destruct (SpecWords.failing_interlocks AllCycles axisMask (Machine.machine w))
    as [| e0 rest] eqn:Hf.
  - destruct (Machine.wait_homing per fuel (run_cycles axisMask (Machine.machine w)))
      as [m' |] eqn:Hw; [| discriminate H].
    injection H as <- <-. split.
    + intros _. simpl. exact (wait_homing_exit _ _ _ _ Hw).
    + intros fuel' Hle. rewrite home_decides, Hf.
      now rewrite (wait_homing_more_fuel _ _ _ _ _ Hw Hle).
  - injection H as <- <-. split.
    + intros ->. exfalso. revert Hf. unfold SpecWords.failing_interlocks.
      destruct (Machine.pins_block_unlock (Machine.machine w)); [discriminate |].
      destruct (negb (axisMask =? AllCycles)%Z && _); [discriminate |].
      destruct (State_eqb (Machine.sys_state (Machine.machine w)) ConfigAlarm);
        [discriminate |].
      destruct (Machine.homingMask (Machine.machine w) =? 0)%Z; [discriminate |].
      destruct (Machine.safety_door_ajar (Machine.machine w)); discriminate.
    + intros fuel' _. now rewrite home_decides, Hf.
Qed.

Lemma home_returns_when_homing_is_over_witness :
  Machine.home Fixtures.all_cycles Fixtures.run_cycles Fixtures.protocol_execute_realtime
               7 0%Z (Fixtures.world_in Idle)
  = Some (Ok, Machine.mkWorld (Fixtures.machine_in Idle)
                [Machine.RunCycles 0%Z; Machine.CycleDone 0%Z]).
Proof.
  apply (proj2 (home_returns_when_homing_is_over
                  Fixtures.all_cycles Fixtures.run_cycles Fixtures.protocol_execute_realtime
                  1 0%Z (Fixtures.world_in Idle) Ok _ eq_refl)).
  lia.
Defined.

(** X13.  For a value made of digits that all name cycles with axes, with
    a cycle table that does not change, whatever [home_all] returns, the
    homing requests it has made are those of the first [n] digits of the
    value, in the order of the value: all of them when the result is Ok,
    not all when it is an error. *)
Theorem home_all_requests_follow_the_digits :
  forall (AllCycles : Machine.AxisMask)
         (run_cycles : Machine.AxisMask -> Machine.Machine -> Machine.Machine)
         (protocol_execute_realtime : Machine.Machine -> Machine.Machine)
         (table : Z -> Machine.AxisMask)
         (namesToMask : Machine.Machine -> string -> Machine.AxisMask -> bool * Machine.AxisMask)
         (fuel : nat) (auth_level : AuthenticationLevel) (v : string)
         (w : Machine.World) (e : Error) (w' : Machine.World),
    c_str v = v -> v <> ""%string ->
    SpecWords.string_forallb
      (fun c => Machine.isdigit c && negb (table (Machine.digit_value c) =? 0)%Z) v = true ->
    Machine.home_all AllCycles run_cycles protocol_execute_realtime (fun _ => table)
                     namesToMask fuel (Some v) auth_level w = Some (e, w') ->
    exists n,
      (n <= String.length v)%nat
      /\ SpecWords.requests (Machine.trace w')
         = SpecWords.requests (Machine.trace w)
             ++ map (fun c => table (Machine.digit_value c))
                    (firstn n (list_ascii_of_string v))
      /\ (e = Ok -> n = String.length v)
      /\ (e <> Ok -> (n < String.length v)%nat).
Proof.
  intros AllCycles run_cycles per table n2m fuel auth_level v w e w' Hc Hne Hv H.
  rewrite (home_all_digits AllCycles run_cycles per (fun _ => table) n2m
             fuel auth_level v w Hc Hne Hv) in H.
  exact (home_cycles_requests AllCycles run_cycles per table fuel v w e w' H).
Qed.

Lemma home_all_requests_follow_the_digits_witness :
  exists n,
    (n <= 3)%nat
    /\ SpecWords.requests
         (Machine.trace
            (Machine.mkWorld (Fixtures.machine_in Idle)
               [Machine.RunCycles 4%Z; Machine.CycleDone 4%Z;
                Machine.RunCycles 3%Z; Machine.CycleDone 3%Z;
                Machine.RunCycles 4%Z; Machine.CycleDone 4%Z]))
       = [] ++ map (fun c => Fixtures.axis_mask_from_cycle (Fixtures.machine_in Idle)
                               (Machine.digit_value c))
                   (firstn n (list_ascii_of_string "212"))
    /\ (Ok = Ok -> n = 3%nat)
    /\ (Ok <> Ok -> (n < 3)%nat).
Proof.
  apply (home_all_requests_follow_the_digits
           Fixtures.all_cycles Fixtures.run_cycles Fixtures.protocol_execute_realtime
           (Fixtures.axis_mask_from_cycle (Fixtures.machine_in Idle)) Fixtures.namesToMask
           1 LEVEL_GUEST "212" (Fixtures.world_in Idle)).
  - reflexivity.
  - discriminate.
  - reflexivity.
  - reflexivity.
Defined.







(** ** Limit display *)

Section LimitsMore.

Import Limits.

Variable motor_bit : nat -> nat -> Z.

Lemma limit_letters_length (names : string) (motor : nat) (mask : Z) (n : nat) :
  forall axis, String.length (limit_letters motor_bit names motor mask n axis) = n.
Proof.
  induction n as [| n IH]; intros axis; simpl; [reflexivity | now rewrite IH].
Qed.

Lemma limit_letters_get (names : string) (motor : nat) (mask : Z) (n : nat) :
  forall axis k,
    (k < n)%nat ->
    String.get k (limit_letters motor_bit names motor mask n axis)
    = Some (if Machine.bitnum_is_true mask (motor_bit (axis + k) motor)
            then axis_letter names (axis + k) else " "%char).
Proof.
  induction n as [| n IH]; intros axis k Hk; [lia |].
  destruct k as [| k]; simpl.
  - now rewrite Nat.add_0_r.
  - rewrite IH by lia. now replace (S axis + k)%nat with (axis + S k)%nat by lia.
Qed.

End LimitsMore.

(** X15.  The text of [limit_set] has two characters per axis, first the
    columns of motor 0 and then those of motor 1; the column of an axis
    holds the axis letter (lower case for motor 0, upper case for motor 1)
    when the motor's bit is set in the mask, and a space when it is not. *)
Theorem limit_set_layout :
  forall (MAX_N_AXIS : nat) (motor_bit : nat -> nat -> Z) (mask : Z),
    String.length (Limits.limit_set MAX_N_AXIS motor_bit mask) = (2 * MAX_N_AXIS)%nat
    /\ forall axis,
        (axis < MAX_N_AXIS)%nat ->
        String.get axis (Limits.limit_set MAX_N_AXIS motor_bit mask)
        = Some (if Z.testbit mask (motor_bit axis 0%nat)
                then Limits.axis_letter "xyzabc" axis else " "%char)
        /\ String.get (MAX_N_AXIS + axis) (Limits.limit_set MAX_N_AXIS motor_bit mask)
           = Some (if Z.testbit mask (motor_bit axis 1%nat)
                   then Limits.axis_letter "XYZABC" axis else " "%char).
Proof.
  intros MAX_N_AXIS motor_bit mask. unfold Limits.limit_set. split.
  - rewrite string_length_append, !limit_letters_length. lia.
  - intros axis Haxis. split.
    + rewrite <- append_correct1 by (rewrite limit_letters_length; exact Haxis).
      now rewrite limit_letters_get.
    + pose proof (append_correct2
                    (Limits.limit_letters motor_bit "xyzabc" 0 mask MAX_N_AXIS 0)
                    (Limits.limit_letters motor_bit "XYZABC" 1 mask MAX_N_AXIS 0)
                    axis) as H.
      rewrite limit_letters_length in H.
      replace (MAX_N_AXIS + axis)%nat with (axis + MAX_N_AXIS)%nat by lia.
      rewrite <- H. now rewrite limit_letters_get.
Qed.

Lemma limit_set_layout_witness :
  String.get 1 (Limits.limit_set 6 Examples.motor_bit 131075) = Some "y"%char
  /\ String.get 7 (Limits.limit_set 6 Examples.motor_bit 131075) = Some "Y"%char.
Proof.
  destruct (limit_set_layout 6 Examples.motor_bit 131075) as [_ H].
  destruct (H 1%nat ltac:(lia)) as [H0 H1].
  split; [exact H0 | exact H1].
Defined.

(** ** UART passthrough *)

Section PassthroughMore.

Import Passthrough MoreWords.

Lemma update_uart_nil (f : Uart -> Uart) (n : nat) : update_uart f n [] = [].
Proof.
  unfold update_uart. rewrite firstn_nil, skipn_nil.
  now destruct (n - 1)%nat.
Qed.

Lemma update_uart_one (f : Uart -> Uart) (x : option Uart) (l : list (option Uart)) :
  update_uart f 1 (x :: l) = lift_uart f x :: l.
Proof. unfold update_uart. simpl. now destruct x. Qed.

Lemma update_uart_succ (f : Uart -> Uart) (k : nat) (x : option Uart)
      (l : list (option Uart)) :
  update_uart f (S (S k)) (x :: l) = x :: update_uart f (S k) l.
Proof.
  unfold update_uart. simpl. now rewrite Nat.sub_0_r.
Qed.

Lemma update_uart_nth (f : Uart -> Uart) (l : list (option Uart)) :
  forall k i,
    nth_error (update_uart f (S k) l) i
    = if (i =? k)%nat then option_map (lift_uart f) (nth_error l i) else nth_error l i.
Proof.
  induction l as [| x l IH]; intros k i.
  - rewrite update_uart_nil. destruct (i =? k)%nat; destruct i; reflexivity.
  - destruct k as [| k].
    + rewrite update_uart_one. destruct i; reflexivity.
    + rewrite update_uart_succ. destruct i as [| i]; [reflexivity |].
      simpl. apply IH.
Qed.

Lemma map_update_uart {B : Type} (g : option Uart -> B) (f : Uart -> Uart)
      (l : list (option Uart)) :
  (forall u, g (Some (f u)) = g (Some u)) ->
  forall k, map g (update_uart f (S k) l) = map g l.
Proof.
  intros Hg. induction l as [| x l IH]; intros k.
  - now rewrite update_uart_nil.
  - destruct k as [| k].
    + rewrite update_uart_one. simpl. f_equal. destruct x; [apply Hg | reflexivity].
    + rewrite update_uart_succ. simpl. now rewrite IH.
Qed.

(** The relay loop changes nothing but the bytes written: to the caller,
    whose output only grows, and to the UART it was given. *)
Lemma relay_preserves (rounds : list Round) (timeout : Z) (k : nat) :
  forall last_ticks w w',
    relay rounds timeout last_ticks (S k) w = Some w' ->
    out_paused w' = out_paused w
    /\ out_log w' = out_log w
    /\ uart_channels w' = uart_channels w
    /\ map uart_mode (secondary_uarts w') = map uart_mode (secondary_uarts w)
    /\ (forall i, i <> k -> nth_error (secondary_uarts w') i = nth_error (secondary_uarts w) i)
    /\ exists received, out_written w' = (out_written w ++ received)%string.
Proof.
  induction rounds as [| r rounds IH]; intros last_ticks w w' H; cbn [relay] in H;
    [discriminate H |].
  destruct (wrap32 (ticks_at_test r - last_ticks) <? wrap32 timeout)%Z.
  - remember (take 256 (upstream_bytes r)) as up eqn:Eup.
    remember (take 256 (downstream_bytes r)) as down eqn:Edown.
    clear Eup Edown.
    destruct (0 <? String.length up)%nat; destruct (0 <? String.length down)%nat;
      cbv beta iota zeta in H; apply IH in H;
      cbn [out_paused out_log uart_channels secondary_uarts out_written] in H;
      destruct H as [Hp [Hl [Hc [Hm [Hn [received Hr]]]]]];
      rewrite ?map_update_uart in Hm by reflexivity;
      (split; [exact Hp |]); (split; [exact Hl |]); (split; [exact Hc |]);
      (split; [exact Hm |]); split;
      try (intros i Hi; rewrite (Hn i Hi), ?update_uart_nth;
           destruct (Nat.eqb_spec i k); [contradiction | reflexivity]);
      try (eexists; rewrite Hr, ?append_assoc; reflexivity);
      try (exists received; exact Hr).
  - injection H as <-. repeat split. exists ""%string. now rewrite append_empty_r.
Qed.

Lemma find_auto_result (l : list (option Uart)) :
  forall n,
    (n <= find_auto l n <= n + List.length l)%nat
    /\ ((find_auto l n < n + List.length l)%nat ->
        exists u, nth_error l (find_auto l n - n) = Some (Some u)
                  /\ passthrough_baud u <> 0%Z).
Proof.
  induction l as [| [u |] l IH]; intros n; simpl.
  - split; lia.
  - destruct (Z.eqb_spec (passthrough_baud u) 0) as [E | E]; simpl.
    + destruct (IH (S n)) as [Hb Hf]. split; [lia |]. intros Hlt.
      destruct Hf as [u' [Hn Hu']]; [lia |].
      exists u'. split; [| exact Hu'].
      replace (find_auto l (S n) - n)%nat with (S (find_auto l (S n) - S n)) by lia.
      exact Hn.
    + split; [lia |]. intros _. exists u. rewrite Nat.sub_diag. now split.
  - destruct (IH (S n)) as [Hb Hf]. split; [lia |]. intros Hlt.
    destruct Hf as [u' [Hn Hu']]; [lia |].
    exists u'. split; [| exact Hu'].
    replace (find_auto l (S n) - n)%nat with (S (find_auto l (S n) - S n)) by lia.
    exact Hn.
Qed.

Lemma find_named_result (uart_name : string) (l : list (option Uart)) :
  forall n m,
    find_named uart_name l n = inr m ->
    (n <= m <= n + List.length l)%nat
    /\ ((m < n + List.length l)%nat ->
        exists u, nth_error l (m - n) = Some (Some u)
                  /\ name u = uart_name /\ passthrough_baud u <> 0%Z).
Proof.
  induction l as [| [u |] l IH]; intros n m H; simpl in H.
  - injection H as <-. simpl. split; lia.
  - destruct (String.eqb_spec (name u) uart_name) as [En | En].
    + destruct (Z.eqb_spec (passthrough_baud u) 0) as [E | E]; [discriminate H |].
      injection H as <-. simpl. split; [lia |]. intros _.
      exists u. rewrite Nat.sub_diag. now repeat split.
    + destruct (IH _ _ H) as [Hb Hf]. simpl. split; [lia |]. intros Hlt.
      destruct Hf as [u' [Hn Hu']]; [lia |].
      exists u'. split; [| exact Hu'].
      replace (m - n)%nat with (S (m - S n)) by lia. exact Hn.
  - destruct (IH _ _ H) as [Hb Hf]. simpl. split; [lia |]. intros Hlt.
    destruct Hf as [u' [Hn Hu']]; [lia |].
    exists u'. split; [| exact Hu'].
    replace (m - n)%nat with (S (m - S n)) by lia. exact Hn.
Qed.

Lemma find_auto_first (before after : list (option Uart)) (u : Uart) :
  (forall u', In (Some u') before -> passthrough_baud u' = 0%Z) ->
  passthrough_baud u <> 0%Z ->
  forall n, find_auto (before ++ Some u :: after) n = (n + List.length before)%nat.
Proof.
  intros Hb Hu. induction before as [| [u' |] before IH]; intros n; simpl.
  - apply Z.eqb_neq in Hu. rewrite Hu. simpl. lia.
  - rewrite (Hb u' (or_introl eq_refl)). simpl.
    rewrite IH; [lia |]. intros u'' Hu''. apply Hb. now right.
  - rewrite IH; [lia |]. intros u'' Hu''. apply Hb. now right.
Qed.

Lemma find_named_first (uart_name : string) (before after : list (option Uart)) (u : Uart) :
  (forall u', In (Some u') before -> name u' <> uart_name) ->
  name u = uart_name -> passthrough_baud u <> 0%Z ->
  forall n,
    find_named uart_name (before ++ Some u :: after) n = inr (n + List.length before)%nat.
Proof.
  intros Hb Hn Hu. induction before as [| [u' |] before IH]; intros n; simpl.
  - rewrite Hn, String.eqb_refl. apply Z.eqb_neq in Hu. rewrite Hu.
    f_equal. lia.
  - destruct (String.eqb_spec (name u') uart_name) as [E | _].
    + exfalso. exact (Hb u' (or_introl eq_refl) E).
    + rewrite IH; [f_equal; lia |]. intros u'' Hu''. apply Hb. now right.
  - rewrite IH; [f_equal; lia |]. intros u'' Hu''. apply Hb. now right.
Qed.

(** Pausing and then resuming the channel of a UART resumes it. *)
Lemma set_channel_paused_twice (b1 b2 : bool) (n : nat) (l : list UartChannel) :
  set_channel_paused b2 n (set_channel_paused b1 n l) = set_channel_paused b2 n l.
Proof.
  induction l as [| c l IH]; simpl; [reflexivity |].
  destruct (uart_num_of c =? n)%nat eqn:E; simpl; rewrite E; [reflexivity |].
  now rewrite IH.
Qed.

Lemma set_channel_resumed (n : nat) (l : list UartChannel) :
  Forall2 (fun c c' => uart_num_of c' = uart_num_of c
                       /\ (channel_paused c' = true -> channel_paused c = true))
          l (set_channel_paused false n l).
Proof.
  induction l as [| c l IH]; simpl; [constructor |].
  destruct (uart_num_of c =? n)%nat.
  - constructor; [split; [reflexivity | discriminate] |].
    clear. induction l; constructor; auto.
  - constructor; [now split | exact IH].
Qed.

Lemma uart_mode_nth (l1 l2 : list (option Uart)) (i : nat) :
  map uart_mode l1 = map uart_mode l2 ->
  option_map uart_mode (nth_error l1 i) = option_map uart_mode (nth_error l2 i).
Proof. intros H. rewrite <- !nth_error_map. now rewrite H. Qed.

(** A successful target search ends on the number of a UART that is
    configured and has passthrough enabled. *)
Lemma passthrough_target_found (uart_name : string) (w : World) (uart_num : nat) :
  (if String.eqb uart_name "auto" then
     let uart_num := find_auto (secondary_uarts w) 1 in
     if (uart_num =? MAX_N_UARTS w)%nat
     then inl "No uart has passthrough_baud configured"%string
     else inr uart_num
   else
     match find_named uart_name (secondary_uarts w) 1 with
     | inl msg => inl msg
     | inr uart_num =>
         if (uart_num =? MAX_N_UARTS w)%nat
         then inl (uart_name ++ " does not exist")%string
         else inr uart_num
     end) = inr uart_num ->
  exists k u,
    uart_num = S k
    /\ nth_error (secondary_uarts w) k = Some (Some u)
    /\ passthrough_baud u <> 0%Z.
Proof.
  unfold MAX_N_UARTS. destruct (String.eqb uart_name "auto").
  - cbv zeta.
    destruct (Nat.eqb_spec (find_auto (secondary_uarts w) 1)
                           (S (List.length (secondary_uarts w)))) as [E | E];
      [discriminate |].
    intros H. injection H as <-.
    destruct (find_auto_result (secondary_uarts w) 1) as [Hb Hf].
    destruct Hf as [u [Hn Hu]]; [simpl; lia |].
    exists (find_auto (secondary_uarts w) 1 - 1)%nat, u.
    repeat split; [lia | exact Hn | exact Hu].
  - destruct (find_named uart_name (secondary_uarts w) 1) as [msg | m] eqn:Hf;
      [discriminate |].
    destruct (Nat.eqb_spec m (S (List.length (secondary_uarts w)))) as [E | E];
      [discriminate |].
    intros H. injection H as <-.
    destruct (find_named_result _ _ _ _ Hf) as [Hb Hr].
    destruct Hr as [u [Hn [_ Hu]]]; [simpl; lia |].
    exists (m - 1)%nat, u. repeat split; [lia | exact Hn | exact Hu].
Qed.

(** The bytes the relay loop hands to the UART it was given are appended
    to what that UART had been sent; the rest of the UART is as it was. *)
Lemma relay_writes (rounds : list Round) (timeout : Z) (k : nat) :
  forall last_ticks w w' u,
    relay rounds timeout last_ticks (S k) w = Some w' ->
    nth_error (secondary_uarts w) k = Some (Some u) ->
    exists sent,
      nth_error (secondary_uarts w') k
      = Some (Some (mkUart (name u) (passthrough_baud u) (in_passthrough u)
                           (uart_written u ++ sent)%string)).
Proof.
  induction rounds as [| r rounds IH]; intros last_ticks w w' u H Hk; cbn [relay] in H;
    [discriminate H |].
  destruct (wrap32 (ticks_at_test r - last_ticks) <? wrap32 timeout)%Z.
  - remember (take 256 (upstream_bytes r)) as up eqn:Eup.
    remember (take 256 (downstream_bytes r)) as down eqn:Edown.
    clear Eup Edown.
    assert (Hup : nth_error (update_uart (uart_write up) (S k) (secondary_uarts w)) k
                  = Some (Some (uart_write up u))).
    { rewrite update_uart_nth, Nat.eqb_refl, Hk. reflexivity. }
    destruct (0 <? String.length up)%nat; destruct (0 <? String.length down)%nat;
      cbv beta iota zeta in H.
    + destruct (IH _ _ _ _ H Hup) as [sent Hs]. cbn in Hs.
      exists (up ++ sent)%string. rewrite Hs, append_assoc. reflexivity.
    + destruct (IH _ _ _ _ H Hup) as [sent Hs]. cbn in Hs.
      exists (up ++ sent)%string. rewrite Hs, append_assoc. reflexivity.
    + exact (IH _ _ _ _ H Hk).
    + exact (IH _ _ _ _ H Hk).
  - injection H as <-. exists ""%string. rewrite append_empty_r, Hk.
    now destruct u.
Qed.

(** The number a successful target search ends on is the one its loop was
    left with. *)
Lemma passthrough_target_selected (uart_name : string) (w : World) (uart_num : nat) :
  (if String.eqb uart_name "auto" then
     let uart_num := find_auto (secondary_uarts w) 1 in
     if (uart_num =? MAX_N_UARTS w)%nat
     then inl "No uart has passthrough_baud configured"%string
     else inr uart_num
   else
     match find_named uart_name (secondary_uarts w) 1 with
     | inl msg => inl msg
     | inr uart_num =>
         if (uart_num =? MAX_N_UARTS w)%nat
         then inl (uart_name ++ " does not exist")%string
         else inr uart_num
     end) = inr uart_num ->
  if String.eqb uart_name "auto"
  then find_auto (secondary_uarts w) 1 = uart_num
  else find_named uart_name (secondary_uarts w) 1 = inr uart_num.
Proof.
  destruct (String.eqb uart_name "auto").
  - cbv zeta. destruct (find_auto (secondary_uarts w) 1 =? MAX_N_UARTS w)%nat;
      [discriminate |].
    intros H. now injection H.
  - destruct (find_named uart_name (secondary_uarts w) 1) as [msg | m];
      [discriminate |].
    destruct (m =? MAX_N_UARTS w)%nat; [discriminate |].
    intros H. now injection H as <-.
Qed.

End PassthroughMore.

(** X16.  The target searches stop at the first match: "auto" takes the
    lowest-numbered secondary UART with a non-zero passthrough baud rate,
    a name takes the lowest-numbered secondary UART that bears it. *)
Theorem passthrough_target_is_first_match :
  forall (before after : list (option Passthrough.Uart)) (u : Passthrough.Uart),
    Passthrough.passthrough_baud u <> 0%Z ->
    ((forall u', In (Some u') before -> Passthrough.passthrough_baud u' = 0%Z) ->
     Passthrough.find_auto (before ++ Some u :: after) 1 = S (List.length before))
    /\ ((forall u', In (Some u') before -> Passthrough.name u' <> Passthrough.name u) ->
        Passthrough.find_named (Passthrough.name u) (before ++ Some u :: after) 1
        = inr (S (List.length before))).
Proof.
  intros before after u Hu. split; intros Hb.
  - now rewrite (find_auto_first before after u Hb Hu 1).
  - now rewrite (find_named_first (Passthrough.name u) before after u Hb eq_refl Hu 1).
Qed.

Lemma passthrough_target_is_first_match_witness :
  Passthrough.find_auto [Some Fixtures.uart1; Some Examples.uart2] 1 = 2%nat.
Proof.
  apply (proj1 (passthrough_target_is_first_match
                  [Some Fixtures.uart1] [] Examples.uart2 ltac:(discriminate))).
  intros u' [H | []]. injection H as <-. reflexivity.
Defined.

(** X17.  When the passthrough command returns Ok, everything it took is
    released: the calling channel is not paused; the UARTs are the same
    ones, with their names and baud rates, and none is in passthrough mode
    that was not before; the UART channels are the same ones and none is
    paused that was not before; nothing was logged. *)
Theorem uartPassthrough_releases :
  forall (rounds : list Passthrough.Round) (start_ticks : Z) (value : option string)
         (auth_level : AuthenticationLevel) (w w' : Passthrough.World),
    Passthrough.uartPassthrough rounds start_ticks value auth_level w = Some (Ok, w') ->
    Passthrough.out_paused w' = false
    /\ Passthrough.out_log w' = Passthrough.out_log w
    /\ List.length (Passthrough.secondary_uarts w')
       = List.length (Passthrough.secondary_uarts w)
    /\ (forall i u',
           nth_error (Passthrough.secondary_uarts w') i = Some (Some u') ->
           exists u,
             nth_error (Passthrough.secondary_uarts w) i = Some (Some u)
             /\ Passthrough.name u' = Passthrough.name u
             /\ Passthrough.passthrough_baud u' = Passthrough.passthrough_baud u
             /\ (Passthrough.in_passthrough u' = true -> Passthrough.in_passthrough u = true))
    /\ Forall2 (fun c c' =>
                  Passthrough.uart_num_of c' = Passthrough.uart_num_of c
                  /\ (Passthrough.channel_paused c' = true ->
                      Passthrough.channel_paused c = true))
               (Passthrough.uart_channels w) (Passthrough.uart_channels w').
Proof.
  intros rounds start_ticks value auth_level w w' H.
  unfold Passthrough.uartPassthrough in H.
  destruct (Passthrough.parse_value value) as [[timeout uart_name] |]; [| discriminate H].
  match type of H with
  | match ?found with _ => _ end = _ => destruct found as [msg | uart_num] eqn:Hfound
  end; [discriminate H |].
  apply passthrough_target_found in Hfound as [k [u0 [-> [Hk Hu0]]]].
  destruct (Passthrough.relay rounds timeout start_ticks (S k) _) as [w2 |] eqn:Hr;
    [| discriminate H].
  injection H as <-.
  apply relay_preserves in Hr.
  cbn [Passthrough.out_paused Passthrough.out_log Passthrough.secondary_uarts
       Passthrough.uart_channels Passthrough.out_written] in Hr.
  destruct Hr as [Hp [Hl [Hc [Hm [Hn _]]]]].
  cbn [Passthrough.out_paused Passthrough.out_log Passthrough.secondary_uarts
       Passthrough.uart_channels].
  split; [reflexivity |]. split; [exact Hl |]. split; [| split].
  - rewrite <- (length_map (fun _ => tt)), (map_update_uart (fun _ => tt)) by reflexivity.
    rewrite length_map, <- (length_map MoreWords.uart_mode), Hm, length_map.
    rewrite <- (length_map (fun _ => tt)), (map_update_uart (fun _ => tt)) by reflexivity.
    now rewrite length_map.
  - intros i u' Hi. rewrite update_uart_nth in Hi.
    pose proof (uart_mode_nth _ _ i Hm) as Hmode.
    rewrite update_uart_nth in Hmode.
    destruct (Nat.eqb_spec i k) as [-> | Hik].
    + rewrite Hk in Hmode. simpl in Hmode.
      destruct (nth_error (Passthrough.secondary_uarts w2) k) as [[u2 |] |];
        try discriminate Hi; try discriminate Hmode.
      simpl in Hi, Hmode. injection Hi as <-. injection Hmode as Hname Hbaud.
      exists u0. repeat split; try assumption. discriminate.
    + rewrite Hi in Hmode. simpl in Hmode.
      destruct (nth_error (Passthrough.secondary_uarts w) i) as [[u |] |];
        try discriminate Hmode.
      simpl in Hmode. injection Hmode as Hname Hbaud Hpt.
      exists u. repeat split; try assumption. intros E. now rewrite <- Hpt.
  - rewrite Hc, set_channel_paused_twice. apply set_channel_resumed.
Qed.

Lemma uartPassthrough_releases_witness :
  Passthrough.out_paused Examples.relay_result = false
  /\ Passthrough.out_log Examples.relay_result = Passthrough.out_log Examples.relay_world.
Proof.
  destruct (uartPassthrough_releases Examples.relay_rounds 0%Z (Some "auto"%string)
              LEVEL_ADMIN Examples.relay_world Examples.relay_result eq_refl)
    as [H1 [H2 _]].
  split; [exact H1 | exact H2].
Defined.

(** X18.  When the passthrough command returns Ok, the bytes it wrote
    went to the selected UART and to the caller, and nowhere else.  The
    selected UART is the one the target search ended on for the name the
    value gave ("auto" when it gave none): it is configured and has a
    non-zero passthrough baud rate; afterwards it holds what it had been
    sent with the relayed bytes appended, and is out of passthrough mode.
    Every other UART entry is exactly as before, and what the caller was
    sent has only grown. *)
Theorem uartPassthrough_writes_to_selected_uart_only :
  forall (rounds : list Passthrough.Round) (start_ticks : Z) (value : option string)
         (auth_level : AuthenticationLevel) (w w' : Passthrough.World),
    Passthrough.uartPassthrough rounds start_ticks value auth_level w = Some (Ok, w') ->
    exists (timeout : Z) (uart_name : string) (k : nat) (u : Passthrough.Uart)
           (sent received : string),
      Passthrough.parse_value value = Some (timeout, uart_name)
      /\ (if String.eqb uart_name "auto"
          then Passthrough.find_auto (Passthrough.secondary_uarts w) 1 = S k
          else Passthrough.find_named uart_name (Passthrough.secondary_uarts w) 1
               = inr (S k))
      /\ nth_error (Passthrough.secondary_uarts w) k = Some (Some u)
      /\ Passthrough.passthrough_baud u <> 0%Z
      /\ nth_error (Passthrough.secondary_uarts w') k
         = Some (Some (Passthrough.mkUart (Passthrough.name u)
                                          (Passthrough.passthrough_baud u) false
                                          (Passthrough.uart_written u ++ sent)%string))
      /\ (forall i, i <> k ->
                    nth_error (Passthrough.secondary_uarts w') i
                    = nth_error (Passthrough.secondary_uarts w) i)
      /\ Passthrough.out_written w' = (Passthrough.out_written w ++ received)%string.
Proof.
  intros rounds start_ticks value auth_level w w' H.
  unfold Passthrough.uartPassthrough in H.
  destruct (Passthrough.parse_value value) as [[timeout uart_name] |]; [| discriminate H].
  match type of H with
  | match ?found with _ => _ end = _ => destruct found as [msg | uart_num] eqn:Hfound
  end; [discriminate H |].
  pose proof (passthrough_target_selected _ _ _ Hfound) as Hsel.
  apply passthrough_target_found in Hfound as [k [u0 [-> [Hk Hu0]]]].
  destruct (Passthrough.relay rounds timeout start_ticks (S k) _) as [w2 |] eqn:Hr;
    [| discriminate H].
  injection H as <-.
  pose proof (relay_preserves _ _ _ _ _ _ Hr) as Hp.
  cbn [Passthrough.out_paused Passthrough.out_log Passthrough.secondary_uarts
       Passthrough.uart_channels Passthrough.out_written] in Hp.
  destruct Hp as [_ [_ [_ [_ [Hn [received Hrecv]]]]]].
  destruct (relay_writes _ _ _ _ _ _ (Passthrough.set_passthrough true u0) Hr)
    as [sent Hsent].
  { cbn [Passthrough.secondary_uarts].
    rewrite update_uart_nth, Nat.eqb_refl, Hk. reflexivity. }
  exists timeout, uart_name, k, u0, sent, received.
  cbn [Passthrough.secondary_uarts Passthrough.out_written].
  split; [reflexivity |]. split; [exact Hsel |]. split; [exact Hk |].
  split; [exact Hu0 |]. split; [| split; [| exact Hrecv]].
  - rewrite update_uart_nth, Nat.eqb_refl, Hsent. reflexivity.
  - intros i Hik. rewrite update_uart_nth.
    destruct (Nat.eqb_spec i k) as [E | _]; [contradiction |].
    rewrite (Hn i Hik), update_uart_nth.
    destruct (Nat.eqb_spec i k) as [E | _]; [contradiction | reflexivity].
Qed.

Lemma uartPassthrough_writes_to_selected_uart_only_witness :
  nth_error (Passthrough.secondary_uarts Examples.relay_result) 0
  = Some (Some Fixtures.uart1)
  /\ exists sent,
      nth_error (Passthrough.secondary_uarts Examples.relay_result) 1
      = Some (Some (Passthrough.mkUart "uart2" 115200%Z false sent)).
Proof.
  destruct (uartPassthrough_writes_to_selected_uart_only Examples.relay_rounds 0%Z
              (Some "auto"%string) LEVEL_ADMIN Examples.relay_world Examples.relay_result
              eq_refl)
    as [timeout [uart_name [k [u [sent [received [Hv [Hsel [Hk [_ [Hk' [Hn _]]]]]]]]]]]].
  injection Hv as <- <-.
  cbn in Hsel. injection Hsel as <-.
  cbn in Hk. injection Hk as <-.
  split.
  - rewrite (Hn 0%nat); [reflexivity | discriminate].
  - exists ("" ++ sent)%string. exact Hk'.
Defined.

(** ** The resolver *)

Section DispatchMore.

Import Dispatch StringUtil MoreWords.

Variable Ext : Type.
Variable ENABLE_AUTHENTICATION : bool.
Variable commands : list (Command Ext).
Variable protocol_buffer_synchronize : World Ext -> World Ext.
Variable runtime_setting : string -> string_view -> World Ext -> TreeOutcome * World Ext.
Variable validate : World Ext -> option string * World Ext.
Variable afterParse : World Ext -> option string * World Ext.
Variable setStringValue : Setting -> string -> Error * Setting.
Variable getCompatibleValue : Setting -> string.
Variable regexMatch : string -> string -> bool.

Local Abbreviation dispatch :=
  (Dispatch.do_command_or_setting Ext ENABLE_AUTHENTICATION commands
     protocol_buffer_synchronize runtime_setting validate afterParse
     setStringValue getCompatibleValue regexMatch).
Local Abbreviation access_setting := (Dispatch.access_setting Ext setStringValue).
Local Abbreviation name_loop := (Dispatch.name_loop Ext setStringValue).
Local Abbreviation grbl_name_loop :=
  (Dispatch.grbl_name_loop Ext setStringValue getCompatibleValue).
Local Abbreviation command_loop :=
  (Dispatch.command_loop Ext ENABLE_AUTHENTICATION protocol_buffer_synchronize).
Local Abbreviation pattern_loop := (Dispatch.pattern_loop Ext regexMatch).

Lemma show_setting_line (s : Setting) (w : World Ext) :
  show_setting Ext (getName s) (getStringValue s) None w
  = mkWorld Ext (settings Ext w) (dec Ext w) (out Ext w ++ [setting_line s])
            (log Ext w) (ext Ext w).
Proof.
  unfold show_setting, setting_line. now rewrite append_empty_r.
Qed.

(** The display loop prints one line per accepted setting, in the order of
    the list, and changes nothing else. *)
Lemma pattern_loop_prints (key : string) (l : list Setting) :
  forall (found : bool) (w : World Ext),
    snd (pattern_loop l key found w)
    = mkWorld Ext (settings Ext w) (dec Ext w)
              (out Ext w ++ map setting_line
                                (filter (fun s => regexMatch key (getName s)) l))
              (log Ext w) (ext Ext w).
Proof.
  induction l as [| s l IH]; intros found w; simpl.
  - rewrite app_nil_r. now destruct w.
  - destruct (regexMatch key (getName s)); rewrite IH; [| reflexivity].
    rewrite show_setting_line. simpl. now rewrite <- app_assoc.
Qed.

Lemma name_loop_view (l : list Setting) (key : string) (w : World Ext) :
  name_loop l key (Some ""%string) w = name_loop l key None w.
Proof.
  induction l as [| s l IH]; simpl; [reflexivity |]. now rewrite IH.
Qed.

Lemma grbl_name_loop_view (l : list Setting) (key : string) (w : World Ext) :
  grbl_name_loop l key (Some ""%string) w = grbl_name_loop l key None w.
Proof.
  induction l as [| s l IH]; simpl; [reflexivity |]. now rewrite IH.
Qed.

Lemma command_loop_view (l : list (Command Ext)) (key : string)
      (auth_level : AuthenticationLevel) (w : World Ext) :
  command_loop l key (Some ""%string) auth_level w = command_loop l key None auth_level w.
Proof.
  induction l as [| cp l IH]; simpl; [reflexivity |]. rewrite IH.
  destruct (command_matches Ext key cp); [| reflexivity].
  unfold Dispatch.run_command, Auth.auth_failed. simpl.
  reflexivity.
Qed.

Lemma uriEncode_not_empty (v : string) :
  c_str v <> ""%string -> sv_empty (Some (Codec.uriEncodeGrblCharacters v)) = false.
Proof.
  destruct v as [| c v]; simpl; [intros H; now contradiction H |].
  destruct (Ascii.eqb c zero); [intros H; now contradiction H |].
  intros _.
  destruct (Ascii.eqb c "%"); [reflexivity |].
  destruct (Ascii.eqb c "!"); [reflexivity |].
  destruct (Ascii.eqb c "?"); [reflexivity |].
  destruct (Ascii.eqb c "~"); reflexivity.
Qed.

(** X19.  A request without a value that no command bears and the
    configuration tree does not handle is a display: whatever the key, it
    returns Ok or InvalidStatement, it leaves every setting, the decode
    buffer, the log and the rest of the controller as the tree lookup left
    them, and it only adds lines to the channel. *)
Theorem display_changes_no_setting :
  forall (key : string) (value : string_view) (auth_level : AuthenticationLevel)
         (w w1 : World Ext),
    sv_empty value = true ->
    forallb (fun c => negb (command_matches Ext key c)) commands = true ->
    runtime_setting key value w = (NotHandled, w1) ->
    let r := dispatch key value auth_level w in
    (fst r = Ok \/ fst r = InvalidStatement)
    /\ settings Ext (snd r) = settings Ext w1
    /\ dec Ext (snd r) = dec Ext w1
    /\ log Ext (snd r) = log Ext w1
    /\ ext Ext (snd r) = ext Ext w1
    /\ exists lines, out Ext (snd r) = out Ext w1 ++ lines.
Proof.
  intros key value auth_level w w1 He Hnc Hrt r. subst r.
  unfold Dispatch.do_command_or_setting.
  rewrite command_loop_none by assumption. rewrite Hrt.
  destruct (first_match (fun s => equal_ignore_case (getName s) key) (settings Ext w1))
    as [Hn | [before [s [after [Hl [Hb Hs]]]]]].
  - rewrite name_loop_none by assumption.
    destruct (first_match (grbl_name_matches key) (settings Ext w1))
      as [Hg | [before [s [after [Hl [Hb Hs]]]]]].
    + rewrite grbl_name_loop_none by assumption. rewrite He.
      pose proof (pattern_loop_prints key (settings Ext w1) false w1) as Hp.
      destruct (Dispatch.pattern_loop Ext regexMatch (settings Ext w1) key false w1)
        as [found w2].
      simpl in Hp. subst w2.
      destruct found; simpl; repeat split; auto; eexists; reflexivity.
    + unfold grbl_name_matches in Hs.
      destruct (getGrblName s) as [g |] eqn:Hg; [| discriminate Hs].
      rewrite Hl. erewrite grbl_name_loop_first by eassumption.
      unfold Dispatch.access_setting. rewrite He. simpl.
      repeat split; auto. eexists; reflexivity.
  - rewrite Hl. erewrite name_loop_first by eassumption.
    unfold Dispatch.access_setting. rewrite He. simpl.
    repeat split; auto. eexists; reflexivity.
Qed.

(** X20.  When nothing bears the key exactly and there is no value, the
    resolver prints one line [$name=value], the value percent-encoded, for
    each setting whose name the matcher accepts, in the order of the
    registry, and nothing else. *)
Theorem pattern_display_lists_the_matches :
  forall (key : string) (value : string_view) (auth_level : AuthenticationLevel)
         (w w1 : World Ext),
    sv_empty value = true ->
    forallb (fun c => negb (command_matches Ext key c)) commands = true ->
    runtime_setting key value w = (NotHandled, w1) ->
    forallb (fun s => negb (equal_ignore_case (getName s) key)) (settings Ext w1) = true ->
    forallb (fun s => negb (grbl_name_matches key s)) (settings Ext w1) = true ->
    snd (dispatch key value auth_level w)
    = mkWorld Ext (settings Ext w1) (dec Ext w1)
              (out Ext w1
                 ++ map setting_line
                        (filter (fun s => regexMatch key (getName s)) (settings Ext w1)))
              (log Ext w1) (ext Ext w1).
Proof.
  intros key value auth_level w w1 He Hnc Hrt Hn Hg.
  unfold Dispatch.do_command_or_setting.
  rewrite command_loop_none by assumption. rewrite Hrt.
  rewrite name_loop_none by assumption.
  rewrite grbl_name_loop_none by assumption. rewrite He.
  pose proof (pattern_loop_prints key (settings Ext w1) false w1) as Hp.
  destruct (Dispatch.pattern_loop Ext regexMatch (settings Ext w1) key false w1)
    as [found w2].
  simpl in Hp. subst w2. now destruct found.
Qed.

(** X21.  With authentication compiled in, a Guest asking for a command
    whose permission is not WG, and a User giving a value to a command
    whose permission is WA, get AuthenticationFailed, and nothing has run:
    the world is the one given, without even the planner synchronisation. *)
Theorem denied_command_is_not_run :
  forall (key : string) (value : string_view) (auth_level : AuthenticationLevel)
         (w : World Ext) (before : list (Command Ext)) (cp : Command Ext)
         (after : list (Command Ext)),
    ENABLE_AUTHENTICATION = true ->
    commands = before ++ cp :: after ->
    forallb (fun c => negb (command_matches Ext key c)) before = true ->
    command_matches Ext key cp = true ->
    (auth_level = LEVEL_GUEST /\ cmd_permissions Ext cp <> WG)
    \/ (auth_level = LEVEL_USER /\ cmd_permissions Ext cp = WA /\ sv_empty value = false) ->
    dispatch key value auth_level w = (AuthenticationFailed, w).
Proof.
  intros key value auth_level w before cp after Hen Hc Hb Hm Hcase.
  unfold Dispatch.do_command_or_setting.
  rewrite Hc. erewrite command_loop_first by eassumption.
  unfold Dispatch.run_command, Auth.auth_failed. rewrite Hen.
  destruct Hcase as [[-> Hp] | [-> [Hp He]]].
  - destruct (cmd_permissions Ext cp); [now contradiction Hp | reflexivity ..].
  - now rewrite He, Hp.
Qed.

(** X22.  A value that is present but has no characters is dispatched as
    an absent value, for commands and settings alike, whenever the
    configuration tree's lookup treats the two alike. *)
Theorem empty_value_dispatches_as_absent :
  forall (key : string) (auth_level : AuthenticationLevel) (w : World Ext),
    runtime_setting key (Some ""%string) w = runtime_setting key None w ->
    dispatch key (Some ""%string) auth_level w = dispatch key None auth_level w.
Proof.
  intros key auth_level w Hrt. unfold Dispatch.do_command_or_setting.
  rewrite command_loop_view, Hrt.
  destruct (command_loop commands key None auth_level w); [reflexivity |].
  destruct (runtime_setting key None w) as [[| | line what | what] w1]; try reflexivity.
  now rewrite name_loop_view, grbl_name_loop_view.
Qed.

(** X23.  Giving back to a setting the value a display printed for it:
    with an empty decode buffer, the write hands [setStringValue] the
    setting's current value (as a C string) and puts the setting it
    returns in the same place of the registry, provided that value is not
    empty. *)
Theorem displayed_value_written_back :
  forall (key : string) (auth_level : AuthenticationLevel) (w w1 : World Ext)
         (before : list Setting) (s : Setting) (after : list Setting),
    let shown := Codec.uriEncodeGrblCharacters (getStringValue s) in
    forallb (fun c => negb (command_matches Ext key c)) commands = true ->
    runtime_setting key (Some shown) w = (NotHandled, w1) ->
    settings Ext w1 = before ++ s :: after ->
    forallb (fun x => negb (equal_ignore_case (getName x) key)) before = true ->
    equal_ignore_case (getName s) key = true ->
    Codec.decoded (dec Ext w1) = ""%string ->
    c_str (getStringValue s) <> ""%string ->
    dispatch key (Some shown) auth_level w
    = (fst (setStringValue s (c_str (getStringValue s))),
       mkWorld Ext
               (before ++ snd (setStringValue s (c_str (getStringValue s))) :: after)
               (Codec.mkDec (c_str (getStringValue s)) (Codec.dec_log (dec Ext w1)))
               (out Ext w1) (log Ext w1) (ext Ext w1)).
Proof.
  intros key auth_level w w1 before s after shown Hnc Hrt Hl Hb Hs Hfresh Hne.
  unfold Dispatch.do_command_or_setting.
  rewrite command_loop_none by assumption. rewrite Hrt, Hl.
  erewrite name_loop_first by eassumption.
  unfold Dispatch.access_setting, Dispatch.write_setting.
  subst shown. rewrite (uriEncode_not_empty _ Hne).
  destruct (dec Ext w1) as [buffer lg] eqn:Hd. simpl in Hfresh. subst buffer.
  rewrite uriDecode_of_encoded.
  destruct (setStringValue s (c_str (getStringValue s))) as [err s'].
  unfold with_settings, with_dec. simpl. reflexivity.
Qed.

End DispatchMore.

Lemma display_changes_no_setting_witness :
  Dispatch.settings unit
    (snd (Fixtures.do_command_or_setting "Sta" None LEVEL_GUEST Fixtures.dispatch_world))
  = [Fixtures.foo; Fixtures.web].
Proof.
  destruct (display_changes_no_setting unit true Fixtures.commands (fun w => w)
              (fun _ _ w => (Dispatch.NotHandled, w)) (fun w => (None, w))
              (fun w => (None, w)) Fixtures.setStringValue getStringValue String.prefix
              "Sta" None LEVEL_GUEST Fixtures.dispatch_world Fixtures.dispatch_world
              eq_refl eq_refl eq_refl) as [_ [H _]].
  exact H.
Defined.

Lemma pattern_display_lists_the_matches_witness :
  Dispatch.out unit
    (snd (Fixtures.do_command_or_setting "Sta" None LEVEL_GUEST Fixtures.dispatch_world))
  = ["$Sta/SSID=home"%string].
Proof.
  pose proof (pattern_display_lists_the_matches unit true Fixtures.commands (fun w => w)
                (fun _ _ w => (Dispatch.NotHandled, w)) (fun w => (None, w))
                (fun w => (None, w)) Fixtures.setStringValue getStringValue String.prefix
                "Sta" None LEVEL_GUEST Fixtures.dispatch_world Fixtures.dispatch_world
                eq_refl eq_refl eq_refl eq_refl eq_refl) as H.
  unfold Fixtures.do_command_or_setting. rewrite H. reflexivity.
Defined.

Lemma denied_command_is_not_run_witness :
  Examples.do_command_or_setting "rst" (Some "*") LEVEL_USER Fixtures.dispatch_world
  = (AuthenticationFailed, Fixtures.dispatch_world).
Proof.
  apply (denied_command_is_not_run unit true Examples.admin_commands (fun w => w)
           (fun _ _ w => (Dispatch.NotHandled, w)) (fun w => (None, w))
           (fun w => (None, w)) Fixtures.setStringValue getStringValue String.prefix
           "rst" (Some "*"%string) LEVEL_USER Fixtures.dispatch_world
           [] _ [] eq_refl eq_refl eq_refl eq_refl).
  right. repeat split.
Defined.

Lemma displayed_value_written_back_witness :
  Fixtures.do_command_or_setting "foo" (Some "bar") LEVEL_GUEST Fixtures.dispatch_world
  = (Ok, Dispatch.mkWorld unit [Fixtures.foo; Fixtures.web] (Codec.mkDec "bar" [])
           [] [] tt).
Proof.
  apply (displayed_value_written_back unit true Fixtures.commands (fun w => w)
           (fun _ _ w => (Dispatch.NotHandled, w)) (fun w => (None, w))
           (fun w => (None, w)) Fixtures.setStringValue getStringValue String.prefix
           "foo" LEVEL_GUEST Fixtures.dispatch_world Fixtures.dispatch_world
           [] Fixtures.foo [Fixtures.web] eq_refl eq_refl eq_refl eq_refl eq_refl eq_refl).
  simpl. discriminate.
Defined.

(** ** Listing of changed settings *)

Section ListingMore.

Import Dispatch Listing MoreWords.

Variable Ext : Type.
Variable ENABLE_AUTHENTICATION : bool.

Lemma list_changed_loop_prints (auth_level : AuthenticationLevel) (l : list Setting) :
  forall w : World Ext,
    list_changed_loop Ext ENABLE_AUTHENTICATION l auth_level w
    = mkWorld Ext (settings Ext w) (dec Ext w)
              (out Ext w
                 ++ map setting_line
                        (filter (changed_and_visible ENABLE_AUTHENTICATION auth_level) l))
              (log Ext w) (ext Ext w).
Proof.
  induction l as [| s l IH]; intros w; simpl.
  - rewrite app_nil_r. now destruct w.
  - rewrite IH.
    destruct (changed_and_visible ENABLE_AUTHENTICATION auth_level s); [| reflexivity].
    rewrite show_setting_line. simpl. now rewrite <- app_assoc.
Qed.

End ListingMore.

(** X24.  The listing of changed settings always returns Ok and changes
    nothing but the channel, to which it adds one line per listed setting
    and the note about passwords.  A listed setting is never of type PIN,
    never has its default value, and never fails the authentication gate;
    when every setting has its default value, the note is all there is. *)
Theorem list_changed_settings_lists_changes_only :
  forall (Ext : Type) (ENABLE_AUTHENTICATION : bool) (value : option string)
         (auth_level : AuthenticationLevel) (w : Dispatch.World Ext),
    let listed := filter (Listing.changed_and_visible ENABLE_AUTHENTICATION auth_level)
                         (Dispatch.settings Ext w) in
    Listing.list_changed_settings Ext ENABLE_AUTHENTICATION value auth_level w
    = (Ok, Dispatch.mkWorld Ext (Dispatch.settings Ext w) (Dispatch.dec Ext w)
             (Dispatch.out Ext w ++ map MoreWords.setting_line listed
                ++ ["(Passwords not shown)"%string])
             (Dispatch.log Ext w) (Dispatch.ext Ext w))
    /\ (forall s, In s listed ->
                  getType s <> PIN
                  /\ c_str (getStringValue s) <> c_str (getDefaultString s)
                  /\ Auth.auth_failed ENABLE_AUTHENTICATION (getPermissions s)
                                      (Some (c_str (getStringValue s))) auth_level = false)
    /\ ((forall s, In s (Dispatch.settings Ext w) ->
                   c_str (getStringValue s) = c_str (getDefaultString s)) ->
        listed = []).
Proof.
  intros Ext EN value auth_level w listed. split; [| split].
  - unfold Listing.list_changed_settings. rewrite list_changed_loop_prints.
    unfold Listing.log_string. simpl. now rewrite <- app_assoc.
  - intros s Hs. apply filter_In in Hs as [_ Hs].
    unfold Listing.changed_and_visible in Hs.
    apply andb_true_iff in Hs as [Hs Ht]. apply andb_true_iff in Hs as [Ha Hd].
    apply negb_true_iff in Ha, Hd, Ht. repeat split.
    + intros E. rewrite E in Ht. discriminate Ht.
    + intros E. rewrite E, String.eqb_refl in Hd. discriminate Hd.
    + exact Ha.
  - intros Hall. subst listed.
    induction (Dispatch.settings Ext w) as [| s l IH]; simpl; [reflexivity |].
    unfold Listing.changed_and_visible at 1.
    rewrite (Hall s (or_introl eq_refl)), String.eqb_refl, andb_false_r. simpl.
    apply IH. intros s' Hs'. apply Hall. now right.
Qed.

Lemma list_changed_settings_lists_changes_only_witness :
  filter (Listing.changed_and_visible true LEVEL_ADMIN)
         (Dispatch.settings unit Examples.default_world) = [].
Proof.
  destruct (list_changed_settings_lists_changes_only unit true None LEVEL_ADMIN
              Examples.default_world) as [_ [_ H]].
  apply H. intros s [<- | [<- | []]]; reflexivity.
Defined.

(** X25.  With authentication compiled in, what the listing of changed
    settings prints for a Guest does not depend on any setting whose
    permission is not WG: two registries that agree on the permissions and
    on the WG settings give the same lines. *)
Theorem list_changed_settings_hides_from_guest :
  forall (Ext : Type) (value value' : option string) (w w' : Dispatch.World Ext),
    Forall2 MoreWords.guest_equivalent (Dispatch.settings Ext w) (Dispatch.settings Ext w') ->
    Dispatch.out Ext w = Dispatch.out Ext w' ->
    Dispatch.out Ext (snd (Listing.list_changed_settings Ext true value LEVEL_GUEST w))
    = Dispatch.out Ext (snd (Listing.list_changed_settings Ext true value' LEVEL_GUEST w')).
Proof.
  intros Ext value value' w w' Heq Hout.
  assert (H : map MoreWords.setting_line
                  (filter (Listing.changed_and_visible true LEVEL_GUEST)
                          (Dispatch.settings Ext w))
              = map MoreWords.setting_line
                    (filter (Listing.changed_and_visible true LEVEL_GUEST)
                            (Dispatch.settings Ext w'))).
  { induction Heq as [| s s' l l' [Hp Hs] _ IH]; [reflexivity |].
    simpl.
    destruct (permissions_eqb (getPermissions s) WG) eqn:E.
    - assert (getPermissions s = WG) as Hwg
          by (destruct (getPermissions s); try discriminate E; reflexivity).
      rewrite <- (Hs Hwg).
      destruct (Listing.changed_and_visible true LEVEL_GUEST s); simpl; now rewrite IH.
    - assert (Hv : forall x, getPermissions x = getPermissions s ->
                             Listing.changed_and_visible true LEVEL_GUEST x = false).
      { intros x Hx. unfold Listing.changed_and_visible, Auth.auth_failed.
        now rewrite Hx, E. }
      rewrite (Hv s eq_refl), (Hv s' (eq_sym Hp)). exact IH. }
  unfold Listing.list_changed_settings. rewrite !list_changed_loop_prints.
  unfold Listing.log_string. simpl. now rewrite Hout, H.
Qed.

Lemma list_changed_settings_hides_from_guest_witness :
  Dispatch.out unit
    (snd (Listing.list_changed_settings unit true None LEVEL_GUEST Fixtures.dispatch_world))
  = Dispatch.out unit
      (snd (Listing.list_changed_settings unit true None LEVEL_GUEST Examples.default_world)).
Proof.
  apply list_changed_settings_hides_from_guest; [| reflexivity].
  repeat constructor; simpl; discriminate.
Defined.

(** ** Line entry point *)

Section ProtocolMore.

Import Dispatch MoreWords.

Variable Ext : Type.
Variable ENABLE_AUTHENTICATION : bool.
Variable commands : list (Command Ext).
Variable protocol_buffer_synchronize : World Ext -> World Ext.
Variable runtime_setting : string -> string_view -> World Ext -> TreeOutcome * World Ext.
Variable validate : World Ext -> option string * World Ext.
Variable afterParse : World Ext -> option string * World Ext.
Variable setStringValue : Setting -> string -> Error * Setting.
Variable getCompatibleValue : Setting -> string.
Variable regexMatch : string -> string -> bool.
Variable sys_state : World Ext -> State.
Variable skip_blocks : World Ext -> bool.
Variable gc_execute_line : string -> World Ext -> Error * World Ext.
Variable job_active : World Ext -> bool.
Variable send_alarm : Unlock.ExecAlarm -> World Ext -> World Ext.

Local Abbreviation execute_line :=
  (Protocol.execute_line Ext ENABLE_AUTHENTICATION commands protocol_buffer_synchronize
     runtime_setting validate afterParse setStringValue getCompatibleValue regexMatch
     sys_state skip_blocks gc_execute_line job_active send_alarm).
Local Abbreviation settings_execute_line :=
  (Dispatch.settings_execute_line Ext ENABLE_AUTHENTICATION commands
     protocol_buffer_synchronize runtime_setting validate afterParse
     setStringValue getCompatibleValue regexMatch).

(** X26.  Whitespace in front of a line that is not empty is skipped: the
    line with the whitespace and the line without it give the same result
    and the same world. *)
Theorem execute_line_skips_leading_whitespace :
  forall (c : ascii) (line : string) (auth_level : AuthenticationLevel) (w : World Ext),
    StringUtil.isspace c = true ->
    c_str line <> ""%string ->
    execute_line (String c line) auth_level w = execute_line line auth_level w.
Proof.
  intros c line auth_level w Hc Hline.
  assert (Hz : Ascii.eqb c zero = false).
  { destruct (Ascii.eqb_spec c zero) as [-> | _]; [discriminate Hc | reflexivity]. }
  unfold Protocol.execute_line. simpl c_str. rewrite Hz.
  destruct (c_str line) as [| c0 rest] eqn:E; [now contradiction Hline |].
  cbn [StringUtil.trim_left]. rewrite Hc. reflexivity.
Qed.

(** X27.  The alarm lock holds back g-code only.  In Alarm, ConfigAlarm
    and Jog, a line that is not empty and whose first character after the
    whitespace is neither '$' nor '[' (a line of whitespace included)
    returns SystemGcLock and leaves the world alone; in every state, a
    line that starts with '$' or '[' is handed to the settings resolver
    without its leading whitespace, unless blocks are being skipped. *)
Theorem execute_line_locks_gcode_only :
  forall (line : string) (auth_level : AuthenticationLevel) (w : World Ext),
    (c_str line <> ""%string ->
     is_settings_line line = false ->
     sys_state w = Alarm \/ sys_state w = ConfigAlarm \/ sys_state w = Jog ->
     execute_line line auth_level w = (SystemGcLock, w))
    /\ (is_settings_line line = true ->
        execute_line line auth_level w
        = if skip_blocks w then (Ok, w)
          else settings_execute_line (StringUtil.trim_left (c_str line)) auth_level w).
Proof.
  intros line auth_level w. unfold is_settings_line, Protocol.execute_line. split.
  - intros Hline Hs Hstate.
    assert (Hlock : Protocol.execute_gcode Ext sys_state gc_execute_line job_active
                      send_alarm (StringUtil.trim_left (c_str line)) w
                    = (SystemGcLock, w)).
    { unfold Protocol.execute_gcode.
      destruct Hstate as [-> | [-> | ->]]; reflexivity. }
    destruct (c_str line) as [| c0 rest] eqn:E; [now contradiction Hline |].
    destruct (StringUtil.trim_left (String c0 rest)) as [| c1 rest1];
      [exact Hlock |].
    rewrite Hs. exact Hlock.
  - intros Hs.
    destruct (c_str line) as [| c0 rest] eqn:E; [discriminate Hs |].
    destruct (StringUtil.trim_left (String c0 rest)) as [| c1 rest1];
      [discriminate Hs |].
    now rewrite Hs.
Qed.

End ProtocolMore.

Lemma execute_line_skips_leading_whitespace_witness :
  Examples.execute_line " G0" (Examples.protocol_world Idle)
  = Examples.execute_line "G0" (Examples.protocol_world Idle).
Proof.
  apply (execute_line_skips_leading_whitespace State true [] (fun w => w)
           (fun _ _ w => (Dispatch.NotHandled, w)) (fun w => (None, w))
           (fun w => (None, w)) Fixtures.setStringValue getStringValue String.prefix
           (Dispatch.ext State) (fun _ => false) Examples.gc_execute_line
           (fun _ => false) (fun _ w => w)
           " "%char "G0" LEVEL_GUEST (Examples.protocol_world Idle)).
  - reflexivity.
  - simpl. discriminate.
Defined.

Lemma execute_line_locks_gcode_only_witness :
  Examples.execute_line "  " (Examples.protocol_world Alarm)
  = (SystemGcLock, Examples.protocol_world Alarm)
  /\ Examples.execute_line " $Foo" (Examples.protocol_world Alarm)
     = (Ok, Dispatch.mkWorld State [Fixtures.foo; Fixtures.web] (Codec.mkDec "" [])
              ["$Foo=bar"%string] [] Alarm).
Proof.
  pose proof (execute_line_locks_gcode_only State true [] (fun w => w)
                (fun _ _ w => (Dispatch.NotHandled, w)) (fun w => (None, w))
                (fun w => (None, w)) Fixtures.setStringValue getStringValue String.prefix
                (Dispatch.ext State) (fun _ => false) Examples.gc_execute_line
                (fun _ => false) (fun _ w => w)) as H.
  split.
  - apply (proj1 (H "  "%string LEVEL_GUEST (Examples.protocol_world Alarm)));
      [simpl; discriminate | reflexivity | left; reflexivity].
  - unfold Examples.execute_line.
    rewrite (proj2 (H " $Foo"%string LEVEL_GUEST (Examples.protocol_world Alarm)) eq_refl).
    reflexivity.
Defined.

Lemma empty_value_dispatches_as_absent_witness :
  Fixtures.do_command_or_setting "i" (Some "") LEVEL_GUEST Fixtures.dispatch_world
  = Fixtures.do_command_or_setting "i" None LEVEL_GUEST Fixtures.dispatch_world.
Proof.
  apply (empty_value_dispatches_as_absent unit true Fixtures.commands (fun w => w)
           (fun _ _ w => (Dispatch.NotHandled, w)) (fun w => (None, w))
           (fun w => (None, w)) Fixtures.setStringValue getStringValue String.prefix
           "i" LEVEL_GUEST Fixtures.dispatch_world).
  reflexivity.
Defined.
